(** * did-jis: TIBET provenance tokens and bilateral consent

    A shallow embedding of [src/tibet.ts] (class [TIBET]) and
    [src/consent.ts] (class [BilateralConsentManager]) together with the
    properties of the token engine and of the consent state machine.

    Conventions of the embedding.
    - JavaScript objects that are shared and mutated in place (the token
      objects held both by [TIBET.tokens] and by [ConsentProposal.token]) live
      in an explicit object heap; maps hold references into it.
    - [generateId()], [new Date()] and [Date.now()] are inputs of each call,
      gathered in an [Env] record.
    - [JSON.stringify] and [crypto.subtle] are platform services: they are
      section variables, so every theorem holds for any platform.
    - Instants are integral millisecond counts ([Z]). [timestamp] is the
      ISO-8601 string the clock gave; [expiresAt], which the code computes
      and compares, is represented by the instant its ISO-8601 string
      denotes.
    - [trustScore] is an IEEE-754 binary64 number, as in JavaScript. *)

Set Warnings "-inexact-float,-register-all".
From Stdlib Require Import ZArith Floats Ascii String.
From stdpp Require Import gmap strings list fin_maps.

Local Open Scope string_scope.
Local Open Scope list_scope.
Local Open Scope Z_scope.

(** ** The JavaScript values the code inspects *)

Module JS.

(** Values of type [unknown] stored in a [Record<string, unknown>].
    Numbers are restricted to integers. *)
Inductive value : Type :=
| Undefined
| Null
| Bool (b : bool)
| Num (z : Z)
| Str (s : string)
| Arr (items : list value)
| Obj (fields : list (string * value)).

(** Truthiness of a string: only the empty string is falsy. *)
Definition truthy_str (s : string) : bool := negb (String.eqb s "").

(** ToBoolean. *)
Definition truthy (v : value) : bool :=
  match v with
  | Undefined | Null => false
  | Bool b => b
  | Num z => negb (z =? 0)
  | Str s => truthy_str s
  | Arr _ | Obj _ => true
  end.

(** Truthiness of an optional string ([undefined] is falsy). *)
Definition truthy_opt (o : option string) : bool :=
  match o with
  | Some s => truthy_str s
  | None => false
  end.

(** Truthiness of an optional number: [undefined] and [0] are falsy. *)
Definition truthy_num (o : option Z) : bool :=
  match o with
  | Some z => negb (z =? 0)
  | None => false
  end.

Fixpoint lookup_field (k : string) (fields : list (string * value)) : value :=
  match fields with
  | [] => Undefined
  | (k', v) :: rest => if String.eqb k k' then v else lookup_field k rest
  end.

(** [v?.k] for the two keys the code reads, [to] and [action]: neither is a
    property of strings, arrays, numbers or booleans. *)
Definition get_prop (v : value) (k : string) : value :=
  match v with
  | Obj fields => lookup_field k fields
  | _ => Undefined
  end.

(** [v !== s] for a string [s]. *)
Definition strict_ne_str (v : value) (s : string) : bool :=
  match v with
  | Str s' => negb (String.eqb s' s)
  | _ => true
  end.

(** [a || b] on strings. *)
Definition or_str (a : option string) (b : string) : string :=
  match a with
  | Some s => if truthy_str s then s else b
  | None => b
  end.

(** ToInt32: wrap-around to a signed 32-bit integer. *)
Definition to_int32 (z : Z) : Z := (z + 2 ^ 31) mod 2 ^ 32 - 2 ^ 31.

(** [charCodeAt]: characters stand for code units below 256. *)
Definition charCode (c : ascii) : Z := Z.of_nat (nat_of_ascii c).

Definition hexDigit (d : Z) : ascii :=
  nth (Z.to_nat d) (list_ascii_of_string "0123456789abcdef") "0"%char.

Fixpoint hexLoop (fuel : nat) (n : Z) (acc : string) : string :=
  match fuel with
  | O => acc
  | S f =>
      let acc' := String (hexDigit (n mod 16)) acc in
      if n / 16 =? 0 then acc' else hexLoop f (n / 16) acc'
  end.

(** [n.toString(16)] for a non-negative integer [n]. *)
Definition toString16 (n : Z) : string :=
  hexLoop (S (Z.to_nat (Z.log2 n))) n "".

Fixpoint repeat_char (n : nat) (c : ascii) : string :=
  match n with
  | O => ""
  | S k => String c (repeat_char k c)
  end.

(** [s.padStart(len, c)]. *)
Definition padStart (len : nat) (c : ascii) (s : string) : string :=
  repeat_char (len - String.length s) c +:+ s.

Fixpoint join (l : list string) : string :=
  match l with
  | [] => ""
  | s :: rest => s +:+ join rest
  end.

(** The range of valid [Date] time values (ECMAScript TimeClip). *)
Definition maxTime : Z := 8640000000000000.

Definition validTime (t : Z) : bool := (- maxTime <=? t) && (t <=? maxTime).

(** Exceptions. *)
Inductive exn : Type :=
| Error (message : string)
| RangeError (message : string).

(** Completion of a call: a value or a thrown exception. *)
Inductive completion (A : Type) : Type :=
| Return (a : A)
| Throw (e : exn).

Arguments Return {A} a.
Arguments Throw {A} e.

(** [new Date(t).toISOString()]: throws on an invalid date; the string it
    returns is represented by the instant [t]. *)
Definition toISOString (t : Z) : completion Z :=
  if validTime t then Return t else Throw (RangeError "Invalid time value").

End JS.

(** ** Types ([types.ts]) *)

Inductive TIBETTokenType : Type :=
| bilateral_consent
| unilateral_action
| verification
| revocation
| delegation
| audit
| threat.

Inductive TIBETState : Type :=
| CREATED
| PROPOSED
| ACCEPTED
| REJECTED
| EXPIRED
| REVOKED.

Record WWWwProvenance : Type := mkProvenance {
  what : JS.value;
  with_ : option (list string);
  where_ : option (list (string * JS.value));
  why : string
}.

Record TIBETToken : Type := mkToken {
  tokenId : string;
  type_ : TIBETTokenType;
  actor : string;
  provenance : WWWwProvenance;
  timestamp : string;
  state : TIBETState;
  signature : string;
  parentId : option string;
  expiresAt : option Z;
  metadata : option (list (string * JS.value))
}.

(** The object literal [tokenData] that is serialised and digested: exactly
    the six fields listed in [createToken] and again in [verify]. *)
Record TokenData : Type := mkTokenData {
  d_tokenId : string;
  d_type : TIBETTokenType;
  d_actor : string;
  d_provenance : WWWwProvenance;
  d_timestamp : string;
  d_parentId : option string
}.

Record VerificationDetails : Type := mkDetails {
  signatureValid : bool;
  notExpired : bool;
  chainIntact : bool;
  actorTrusted : bool
}.

Record VerificationResult : Type := mkResult {
  valid : bool;
  vr_tokenId : string;
  trustScore : float;
  details : VerificationDetails;
  error : option string
}.

Record ProvenanceChain : Type := mkChain {
  chain_length : nat;
  chain_tokens : list TIBETToken;
  origin : option TIBETToken;
  current : option TIBETToken
}.

Definition set_state (s : TIBETState) (t : TIBETToken) : TIBETToken :=
  mkToken (tokenId t) (type_ t) (actor t) (provenance t) (timestamp t) s
          (signature t) (parentId t) (expiresAt t) (metadata t).

Definition set_expiresAt (e : option Z) (t : TIBETToken) : TIBETToken :=
  mkToken (tokenId t) (type_ t) (actor t) (provenance t) (timestamp t) (state t)
          (signature t) (parentId t) e (metadata t).

Definition set_metadata (m : option (list (string * JS.value))) (t : TIBETToken)
  : TIBETToken :=
  mkToken (tokenId t) (type_ t) (actor t) (provenance t) (timestamp t) (state t)
          (signature t) (parentId t) (expiresAt t) m.

Definition set_signature (s : string) (t : TIBETToken) : TIBETToken :=
  mkToken (tokenId t) (type_ t) (actor t) (provenance t) (timestamp t) (state t)
          s (parentId t) (expiresAt t) (metadata t).

(** A placeholder object, returned only when a reference is dereferenced
    outside the heap, which no operation below ever does. *)
Definition noToken : TIBETToken :=
  mkToken "" audit "" (mkProvenance JS.Undefined None None "") "" CREATED ""
          None None None.

#[global] Instance TIBETToken_inhabited : Inhabited TIBETToken :=
  populate noToken.

(** ** The token engine ([tibet.ts]) *)

(** The values one call reads from its environment: the ISO string of the
    clock read by the caller for its metadata, the identifier [generateId()]
    returns, the ISO string of the clock read for [timestamp], and the
    instant [Date.now()] returns for the expiry (the last two reads are
    separated by an [await]). *)
Record Env : Type := mkEnv {
  meta_now : string;
  gen_id : string;
  ts_now : string;
  exp_now : Z
}.

(** The argument object of [createToken]. *)
Record CreateParams : Type := mkParams {
  p_type : TIBETTokenType;
  p_what : JS.value;
  p_with : option (list string);
  p_where : option (list (string * JS.value));
  p_why : string;
  p_actor : option string;
  p_parentId : option string;
  p_expiresIn : option Z;
  p_metadata : option (list (string * JS.value))
}.

Definition set_expiresIn (d : option Z) (p : CreateParams) : CreateParams :=
  mkParams (p_type p) (p_what p) (p_with p) (p_where p) (p_why p) (p_actor p)
           (p_parentId p) d (p_metadata p).

Definition set_p_metadata (m : option (list (string * JS.value)))
  (p : CreateParams) : CreateParams :=
  mkParams (p_type p) (p_what p) (p_with p) (p_where p) (p_why p) (p_actor p)
           (p_parentId p) (p_expiresIn p) m.

(** An instance of class [TIBET]: the heap of token objects, the private
    [tokens] map from identifier to object, and [defaultActor]. *)
Record TIBET : Type := mkTIBET {
  objects : list TIBETToken;
  tokens : gmap string nat;
  defaultActor : string
}.

(** [new TIBET(actor)]. *)
Definition new_TIBET (actor : option string) : TIBET :=
  mkTIBET [] ∅ (JS.or_str actor "anonymous").

(** [this.tokens.get(id)], with the object read from the heap. *)
Definition getToken (t : TIBET) (id : string) : option TIBETToken :=
  match tokens t !! id with
  | Some r => objects t !! r
  | None => None
  end.

(** The first argument of [verify]: [TIBETToken | string]. *)
Inductive TokenOrId : Type :=
| ById (id : string)
| ByToken (tok : TIBETToken).

Definition tokenDataOf (t : TIBETToken) : TokenData :=
  mkTokenData (tokenId t) (type_ t) (actor t) (provenance t) (timestamp t)
              (parentId t).

(** [current.parentId ? this.tokens.get(current.parentId) : undefined]. *)
Definition parentOf (t : TIBET) (c : TIBETToken) : option TIBETToken :=
  match parentId c with
  | Some pid => if JS.truthy_str pid then getToken t pid else None
  | None => None
  end.

(** The [while (current)] loop of [getChain]; [None] when the fuel runs out
    before the loop ends. *)
Fixpoint walk (fuel : nat) (t : TIBET) (acc : list TIBETToken)
  (cur : option TIBETToken) : option (list TIBETToken) :=
  match cur with
  | None => Some acc
  | Some c =>
      match fuel with
      | O => None
      | S f => walk f t (c :: acc) (parentOf t c)
      end
  end.

(** [getChain(tokenId)]: [Some None] is the [null] result, [None] means the
    loop did not end within the fuel. *)
Definition getChain (fuel : nat) (t : TIBET) (id : string)
  : option (option ProvenanceChain) :=
  match getToken t id with
  | None => Some None
  | Some c =>
      match walk fuel t [] (Some c) with
      | None => None
      | Some toks =>
          Some (Some (mkChain (length toks) toks (toks !! 0%nat)
                              (toks !! (length toks - 1)%nat)))
      end
  end.

(** [updateState(tokenId, newState)]: the object is mutated in place. *)
Definition updateState (id : string) (newState : TIBETState) (t : TIBET)
  : option nat * TIBET :=
  match tokens t !! id with
  | None => (None, t)
  | Some r =>
      (Some r,
       mkTIBET (<[r := set_state newState (objects t !!! r)]> (objects t))
               (<[id := r]> (tokens t))
               (defaultActor t))
  end.

(** [import(json)], on the entries [JSON.parse] produced: each entry is a new
    object. *)
Definition import_ (entries : list (string * TIBETToken)) (t : TIBET) : TIBET :=
  fold_left
    (fun (acc : TIBET) (e : string * TIBETToken) =>
       mkTIBET (objects acc ++ [e.2])
               (<[e.1 := length (objects acc)]> (tokens acc))
               (defaultActor acc))
    entries t.

Section Platform.

(** [JSON.stringify] on the [tokenData] object, for data it serialises: the
    values of the model are trees of JSON data, on which it returns a text.
    Its TypeError on a BigInt or on a cyclic object is not modelled, so no
    theorem states which exception a failing [createToken] throws. *)
Variable JSON_stringify : TokenData -> string.

(** [crypto.subtle], when the platform has it: the SHA-256 digest bytes of
    the encoded text. *)
Variable crypto_subtle : option (string -> list Z).

(** The loop of the fallback hash. *)
Definition fallbackHash (data : string) : Z :=
  fold_left
    (fun (hash : Z) (c : ascii) =>
       JS.to_int32 (JS.to_int32 (hash * 32) - hash + JS.charCode c))
    (list_ascii_of_string data) 0.

(** [generateSignature(data)]. *)
Definition generateSignature (data : string) : string :=
  match crypto_subtle with
  | Some digest =>
      JS.join (map (fun b : Z => JS.padStart 2 "0" (JS.toString16 b)) (digest data))
  | None => JS.padStart 16 "0" (JS.toString16 (Z.abs (fallbackHash data)))
  end.

(** The [expiresAt] expression of [createToken]:
    [params.expiresIn ? new Date(Date.now() + params.expiresIn).toISOString()
    : undefined]. *)
Definition expiryOf (expiresIn : option Z) (now : Z) : JS.completion (option Z) :=
  if JS.truthy_num expiresIn then
    match JS.toISOString (now + default 0 expiresIn) with
    | JS.Return e => JS.Return (Some e)
    | JS.Throw x => JS.Throw x
    end
  else JS.Return None.

(** [createToken(params)]: returns the reference of the new token object. *)
Definition createToken (p : CreateParams) (env : Env) (t : TIBET)
  : JS.completion nat * TIBET :=
  let tokenId := gen_id env in
  let timestamp := ts_now env in
  let actor := JS.or_str (p_actor p) (defaultActor t) in
  let provenance := mkProvenance (p_what p) (p_with p) (p_where p) (p_why p) in
  let tokenData :=
    mkTokenData tokenId (p_type p) actor provenance timestamp (p_parentId p) in
  let signature := generateSignature (JSON_stringify tokenData) in
  match expiryOf (p_expiresIn p) (exp_now env) with
  | JS.Throw x => (JS.Throw x, t)
  | JS.Return expires =>
      let token :=
        mkToken tokenId (p_type p) actor provenance timestamp CREATED signature
                (p_parentId p) expires (p_metadata p) in
      let r := length (objects t) in
      (JS.Return r,
       mkTIBET (objects t ++ [token]) (<[tokenId := r]> (tokens t))
               (defaultActor t))
  end.

(** [verify(tokenOrId)], at the instant [now] read by [new Date()]. *)
Definition verify (t : TIBET) (tokenOrId : TokenOrId) (now : Z)
  : VerificationResult :=
  let token :=
    match tokenOrId with
    | ById id => getToken t id
    | ByToken tok => Some tok
    end in
  match token with
  | None =>
      mkResult false
               (match tokenOrId with ById id => id | ByToken _ => "unknown" end)
               0%float
               (mkDetails false false false false)
               (Some "Token not found")
  | Some token =>
      let notExpired :=
        match expiresAt token with
        | Some e => now <? e
        | None => true
        end in
      let expectedSignature :=
        generateSignature (JSON_stringify (tokenDataOf token)) in
      let signatureValid := String.eqb (signature token) expectedSignature in
      let chainIntact :=
        match parentId token with
        | Some pid =>
            if JS.truthy_str pid then
              match getToken t pid with Some _ => true | None => false end
            else true
        | None => true
        end in
      let actorTrusted := negb (String.eqb (actor token) "anonymous") in
      let s0 := 0%float in
      let s1 := if signatureValid then (s0 + 0.4)%float else s0 in
      let s2 := if notExpired then (s1 + 0.3)%float else s1 in
      let s3 := if chainIntact then (s2 + 0.2)%float else s2 in
      let s4 := if actorTrusted then (s3 + 0.1)%float else s3 in
      mkResult (signatureValid && notExpired && chainIntact)
               (tokenId token)
               s4
               (mkDetails signatureValid notExpired chainIntact actorTrusted)
               None
  end.

End Platform.

(** ** Bilateral consent ([consent.ts]) *)

Record BilateralConsent : Type := mkConsent {
  c_from : string;
  c_to : string;
  c_action : string;
  c_purpose : string;
  c_context : option (list (string * JS.value));
  c_expiresIn : option Z
}.

(** A [ConsentProposal] holds the token object itself ([acceptUrl] and
    [rejectUrl] are never set). *)
Record ConsentProposal : Type := mkProposal {
  token : nat
}.

Record ConsentResponse : Type := mkResponse {
  proposalId : string;
  accepted : bool;
  r_token : nat;
  reason : option string
}.

(** An instance of class [BilateralConsentManager]. *)
Record BilateralConsentManager : Type := mkManager {
  tibet : TIBET;
  proposals : gmap string ConsentProposal
}.

(** [new BilateralConsentManager(actorDid)]. *)
Definition new_Manager (actorDid : option string) : BilateralConsentManager :=
  mkManager (new_TIBET actorDid) ∅.

(** The state of the token a proposal wraps, [p.token.state]. *)
Definition proposalState (m : BilateralConsentManager) (id : string)
  : option TIBETState :=
  match proposals m !! id with
  | Some p => state <$> (objects (tibet m) !! token p)
  | None => None
  end.

(** [value] of an optional string. *)
Definition optStr (o : option string) : JS.value :=
  match o with
  | Some s => JS.Str s
  | None => JS.Undefined
  end.

Section Consent.

Variable JSON_stringify : TokenData -> string.
Variable crypto_subtle : option (string -> list Z).

(** [propose(consent)]. *)
Definition propose (consent : BilateralConsent) (env : Env)
  (m : BilateralConsentManager)
  : JS.completion ConsentProposal * BilateralConsentManager :=
  let params :=
    mkParams bilateral_consent
             (JS.Obj [("action", JS.Str (c_action consent));
                      ("from", JS.Str (c_from consent));
                      ("to", JS.Str (c_to consent))])
             (Some [c_from consent; c_to consent])
             (c_context consent)
             (c_purpose consent)
             (Some (c_from consent))
             None
             (c_expiresIn consent)
             (Some [("consentType", JS.Str "bilateral");
                    ("proposedAt", JS.Str (meta_now env))]) in
  match createToken JSON_stringify crypto_subtle params env (tibet m) with
  | (JS.Throw x, t1) => (JS.Throw x, mkManager t1 (proposals m))
  | (JS.Return r, t1) =>
      let t2 := (updateState (tokenId (objects t1 !!! r)) PROPOSED t1).2 in
      let proposal := mkProposal r in
      (JS.Return proposal,
       mkManager t2 (<[tokenId (objects t2 !!! r) := proposal]> (proposals m)))
  end.

(** [accept(proposalId, acceptorDid)]. *)
Definition accept (proposalId acceptorDid : string) (env : Env)
  (m : BilateralConsentManager)
  : JS.completion ConsentResponse * BilateralConsentManager :=
  match proposals m !! proposalId with
  | None => (JS.Throw (JS.Error ("Proposal not found: " +:+ proposalId)), m)
  | Some proposal =>
      let originalToken := objects (tibet m) !!! token proposal in
      let provenance := provenance originalToken in
      let expectedTo := JS.get_prop (what provenance) "to" in
      if JS.truthy expectedTo && JS.strict_ne_str expectedTo acceptorDid then
        (JS.Throw (JS.Error "Acceptor does not match intended recipient"), m)
      else
        let params :=
          mkParams bilateral_consent
                   (JS.Obj [("action", JS.Str "consent_accepted");
                            ("originalAction",
                             JS.get_prop (what provenance) "action")])
                   (with_ provenance)
                   (where_ provenance)
                   ("Accepted: " +:+ why provenance)
                   (Some acceptorDid)
                   (Some proposalId)
                   None
                   (Some [("responseType", JS.Str "acceptance");
                          ("acceptedAt", JS.Str (meta_now env))]) in
        match createToken JSON_stringify crypto_subtle params env (tibet m) with
        | (JS.Throw x, t1) => (JS.Throw x, mkManager t1 (proposals m))
        | (JS.Return r, t1) =>
            let t2 := (updateState (tokenId (objects t1 !!! r)) ACCEPTED t1).2 in
            let t3 := (updateState proposalId ACCEPTED t2).2 in
            (JS.Return (mkResponse proposalId true r None),
             mkManager t3 (proposals m))
        end
  end.

(** [reject(proposalId, rejectorDid, reason)]. *)
Definition reject (proposalId rejectorDid : string) (reason : option string)
  (env : Env) (m : BilateralConsentManager)
  : JS.completion ConsentResponse * BilateralConsentManager :=
  match proposals m !! proposalId with
  | None => (JS.Throw (JS.Error ("Proposal not found: " +:+ proposalId)), m)
  | Some proposal =>
      let originalToken := objects (tibet m) !!! token proposal in
      let provenance := provenance originalToken in
      let params :=
        mkParams bilateral_consent
                 (JS.Obj [("action", JS.Str "consent_rejected");
                          ("originalAction",
                           JS.get_prop (what provenance) "action")])
                 (with_ provenance)
                 (where_ provenance)
                 (JS.or_str reason ("Rejected: " +:+ why provenance))
                 (Some rejectorDid)
                 (Some proposalId)
                 None
                 (Some [("responseType", JS.Str "rejection");
                        ("rejectedAt", JS.Str (meta_now env));
                        ("reason", optStr reason)]) in
      match createToken JSON_stringify crypto_subtle params env (tibet m) with
      | (JS.Throw x, t1) => (JS.Throw x, mkManager t1 (proposals m))
      | (JS.Return r, t1) =>
          let t2 := (updateState (tokenId (objects t1 !!! r)) REJECTED t1).2 in
          let t3 := (updateState proposalId REJECTED t2).2 in
          (JS.Return (mkResponse proposalId false r reason),
           mkManager t3 (proposals m))
      end
  end.

(** [getConsentChain(proposalId)]. *)
Definition getConsentChain (fuel : nat) (m : BilateralConsentManager)
  (proposalId : string) : option (option ProvenanceChain) :=
  getChain fuel (tibet m) proposalId.

(** [verifyConsent(tokenId)]. *)
Definition verifyConsent (m : BilateralConsentManager) (id : string) (now : Z)
  : VerificationResult :=
  verify JSON_stringify crypto_subtle (tibet m) (ById id) now.

End Consent.

(** ** The rest of the token engine ([tibet.ts]) *)

(** The template of the identifiers [generateId] makes when the platform has
    no [crypto.randomUUID]. *)
Definition uuidTemplate : string := "xxxxxxxx-xxxx-4xxx-yxxx-xxxxxxxxxxxx".

(** [template.replace(/[xy]/g, c => ...)]: the callback runs once for each
    [x] and [y], from left to right; [rand i] is the value of
    [(Math.random() * 16) | 0] at its i-th call. *)
Fixpoint fillTemplate (tpl : string) (i : nat) (rand : nat -> Z) : string :=
  match tpl with
  | EmptyString => EmptyString
  | String c rest =>
      if Ascii.eqb c "x" then
        JS.toString16 (rand i) +:+ fillTemplate rest (S i) rand
      else if Ascii.eqb c "y" then
        JS.toString16 (Z.lor (Z.land (rand i) 3) 8)
        +:+ fillTemplate rest (S i) rand
      else String c (fillTemplate rest i rand)
  end.

(** [generateId()]; [randomUUID] is what [crypto.randomUUID()] returns where
    the platform has it. *)
Definition generateId (randomUUID : option string) (rand : nat -> Z) : string :=
  match randomUUID with
  | Some uuid => uuid
  | None => fillTemplate uuidTemplate 0 rand
  end.

#[global] Instance TIBETTokenType_eq_dec : EqDecision TIBETTokenType.
Proof. solve_decision. Defined.

#[global] Instance TIBETState_eq_dec : EqDecision TIBETState.
Proof. solve_decision. Defined.

(** The argument of [listTokens]. *)
Record TokenFilter : Type := mkFilter {
  f_type : option TIBETTokenType;
  f_state : option TIBETState;
  f_actor : option string
}.

(** [Array.from(this.tokens.values())]. The list is in the order of the
    keys of the map, which is not the insertion order of a JavaScript [Map]:
    only what is in the list is meant. *)
Definition tokenValues (t : TIBET) : list TIBETToken :=
  omap (fun kr : string * nat => objects t !! kr.2) (map_to_list (tokens t)).

(** [listTokens(filter)]: a filter field counts when it is truthy. *)
Definition listTokens (flt : option TokenFilter) (t : TIBET) : list TIBETToken :=
  let tokens0 := tokenValues t in
  let tokens1 :=
    match flt ≫= f_type with
    | Some ty => filter (fun x => type_ x = ty) tokens0
    | None => tokens0
    end in
  let tokens2 :=
    match flt ≫= f_state with
    | Some st => filter (fun x => state x = st) tokens1
    | None => tokens1
    end in
  if JS.truthy_opt (flt ≫= f_actor) then
    filter (fun x => Some (actor x) = flt ≫= f_actor) tokens2
  else tokens2.

(** ** The rest of the consent manager ([consent.ts]) *)

(** [listProposals(state)], in the order of the keys of the map. *)
Definition listProposals (st : option TIBETState) (m : BilateralConsentManager)
  : list ConsentProposal :=
  let proposals0 := (map_to_list (proposals m)).*2 in
  match st with
  | Some s =>
      filter (fun p => state (objects (tibet m) !!! token p) = s) proposals0
  | None => proposals0
  end.

(** [getTibet()]. *)
Definition getTibet (m : BilateralConsentManager) : TIBET := tibet m.

(** What [createBilateralConsent] returns: the proposal and two closures over
    the manager it made; a closure takes the manager in the state it has when
    the closure is called. *)
Record QuickConsent : Type := mkQuick {
  q_proposal : ConsentProposal;
  q_accept : option string -> Env -> BilateralConsentManager ->
             JS.completion ConsentResponse * BilateralConsentManager;
  q_reject : option string -> Env -> BilateralConsentManager ->
             JS.completion ConsentResponse * BilateralConsentManager
}.

Section ConsentHelper.

Variable JSON_stringify : TokenData -> string.
Variable crypto_subtle : option (string -> list Z).

(** [createBilateralConsent(consent)]. *)
Definition createBilateralConsent (consent : BilateralConsent) (env : Env)
  : JS.completion QuickConsent * BilateralConsentManager :=
  let manager := new_Manager (Some (c_from consent)) in
  match propose JSON_stringify crypto_subtle consent env manager with
  | (JS.Throw x, m) => (JS.Throw x, m)
  | (JS.Return proposal, m) =>
      (JS.Return
         (mkQuick proposal
            (fun (_ : option string) (env' : Env) (m' : BilateralConsentManager) =>
               accept JSON_stringify crypto_subtle
                      (tokenId (objects (tibet m') !!! token proposal))
                      (c_to consent) env' m')
            (fun (reason : option string) (env' : Env)
                 (m' : BilateralConsentManager) =>
               reject JSON_stringify crypto_subtle
                      (tokenId (objects (tibet m') !!! token proposal))
                      (c_to consent) reason env' m')),
       m)
  end.

End ConsentHelper.

(** ** Identifiers, documents and the resolver ([did.ts]) *)

Module DID.

Definition code (c : ascii) : nat := nat_of_ascii c.

Definition between (lo hi : nat) (c : ascii) : bool :=
  (lo <=? code c)%nat && (code c <=? hi)%nat.

(** The class [[a-z]]. *)
Definition isLower (c : ascii) : bool := between 97 122 c.

(** The class [[a-zA-Z0-9:._-]]. *)
Definition isIdChar (c : ascii) : bool :=
  between 97 122 c || between 65 90 c || between 48 57 c
  || Ascii.eqb c ":" || Ascii.eqb c "." || Ascii.eqb c "_" || Ascii.eqb c "-".

(** What [.] does not match: the line terminators (among code units below
    256, line feed and carriage return). *)
Definition isLineTerminator (c : ascii) : bool :=
  (code c =? 10)%nat || (code c =? 13)%nat.

Fixpoint allChars (f : ascii -> bool) (s : string) : bool :=
  match s with
  | EmptyString => true
  | String c rest => f c && allChars f rest
  end.

(** [s.startsWith(p)], with what follows the prefix. *)
Fixpoint stripPrefix (p s : string) : option string :=
  match p with
  | EmptyString => Some s
  | String a p' =>
      match s with
      | String b s' => if Ascii.eqb a b then stripPrefix p' s' else None
      | EmptyString => None
      end
  end.

(** The longest run of lower-case letters at the start, and the rest. *)
Fixpoint spanLower (s : string) : string * string :=
  match s with
  | EmptyString => (EmptyString, EmptyString)
  | String c rest =>
      if isLower c then
        let (run, after) := spanLower rest in (String c run, after)
      else (EmptyString, s)
  end.

Definition nonEmpty (s : string) : bool :=
  match s with
  | EmptyString => false
  | String _ _ => true
  end.

Record ParsedDID : Type := mkParsed {
  method : string;
  id_ : string
}.

(** [parseDID(did)]: the match of [/^did:([a-z]+):(.+)$/]. The greedy
    [[a-z]+] can only be followed by [:] after its longest run, and [(.+)$]
    takes all the rest, which must be non-empty and free of line
    terminators. *)
Definition parseDID (did : string) : option ParsedDID :=
  match stripPrefix "did:" did with
  | None => None
  | Some rest =>
      let (run, after) := spanLower rest in
      match after with
      | String c id =>
          if nonEmpty run && Ascii.eqb c ":" && nonEmpty id
             && allChars (fun x => negb (isLineTerminator x)) id
          then Some (mkParsed run id)
          else None
      | EmptyString => None
      end
  end.

(** [/^[a-zA-Z0-9:._-]+$/.test(id)]. *)
Definition testId (id : string) : bool := nonEmpty id && allChars isIdChar id.

(** [isValidDID(did)]. *)
Definition isValidDID (did : string) : bool :=
  match stripPrefix "did:jis:" did with
  | None => false
  | Some _ =>
      match parseDID did with
      | None => false
      | Some parsed => testId (id_ parsed)
      end
  end.

(** [parts.join(':')]. *)
Fixpoint joinColon (parts : list string) : string :=
  match parts with
  | [] => ""
  | [p] => p
  | p :: rest => p +:+ ":" +:+ joinColon rest
  end.

(** [createDID(...parts)]. *)
Definition createDID (parts : list string) : JS.completion string :=
  match parts with
  | [] => JS.Throw (JS.Error "DID must have at least one identifier part")
  | _ =>
      let id := joinColon parts in
      if negb (testId id) then
        JS.Throw (JS.Error "DID contains invalid characters")
      else JS.Return ("did:jis:" +:+ id)
  end.

Record VerificationMethod : Type := mkMethod {
  vm_id : string;
  vm_type : string;
  vm_controller : string;
  publicKeyJwk : option JS.value;
  publicKeyMultibase : option string
}.

Record ServiceEndpoint : Type := mkService {
  se_id : string;
  se_type : string;
  serviceEndpoint : JS.value
}.

Record DIDDocument : Type := mkDocument {
  context : list string;
  doc_id : string;
  controller : option string;
  verificationMethod : option (list VerificationMethod);
  authentication : option (list string);
  assertionMethod : option (list string);
  service : option (list ServiceEndpoint)
}.

(** [a || []] on an optional array. *)
Definition orEmpty {A} (o : option (list A)) : list A :=
  match o with
  | Some l => l
  | None => []
  end.

(** [new DIDDocumentBuilder(did)]: the builder is its document. *)
Definition newBuilder (did : string) : JS.completion DIDDocument :=
  if negb (isValidDID did) then JS.Throw (JS.Error ("Invalid DID: " +:+ did))
  else
    JS.Return
      (mkDocument ["https://www.w3.org/ns/did/v1";
                   "https://w3id.org/security/suites/jws-2020/v1";
                   "https://humotica.com/ns/jis/v1"]
                  did None (Some []) (Some []) (Some []) (Some [])).

Definition setController (c : string) (d : DIDDocument) : DIDDocument :=
  mkDocument (context d) (doc_id d) (Some c) (verificationMethod d)
             (authentication d) (assertionMethod d) (service d).

Definition addVerificationMethod (m : VerificationMethod) (d : DIDDocument)
  : DIDDocument :=
  mkDocument (context d) (doc_id d) (controller d)
             (Some (orEmpty (verificationMethod d) ++ [m]))
             (authentication d) (assertionMethod d) (service d).

Definition addAuthentication (methodId : string) (d : DIDDocument) : DIDDocument :=
  mkDocument (context d) (doc_id d) (controller d) (verificationMethod d)
             (Some (orEmpty (authentication d) ++ [methodId]))
             (assertionMethod d) (service d).

Definition addAssertionMethod (methodId : string) (d : DIDDocument) : DIDDocument :=
  mkDocument (context d) (doc_id d) (controller d) (verificationMethod d)
             (authentication d)
             (Some (orEmpty (assertionMethod d) ++ [methodId])) (service d).

Definition addService (s : ServiceEndpoint) (d : DIDDocument) : DIDDocument :=
  mkDocument (context d) (doc_id d) (controller d) (verificationMethod d)
             (authentication d) (assertionMethod d)
             (Some (orEmpty (service d) ++ [s])).

Definition addConsentService (endpoint : string) (d : DIDDocument) : DIDDocument :=
  addService (mkService (doc_id d +:+ "#bilateral-consent")
                        "BilateralConsentService" (JS.Str endpoint)) d.

Definition addTibetService (endpoint : string) (d : DIDDocument) : DIDDocument :=
  addService (mkService (doc_id d +:+ "#tibet-provenance")
                        "TIBETProvenanceService" (JS.Str endpoint)) d.

(** [build()], read at the moment of the call. *)
Definition build (d : DIDDocument) : DIDDocument := d.

(** An instance of class [DIDResolver]: its [documents] map. *)
Record DIDResolver : Type := mkResolver {
  documents : gmap string DIDDocument
}.

Definition newResolver : DIDResolver := mkResolver ∅.

(** [register(doc)]. *)
Definition register (doc : DIDDocument) (r : DIDResolver)
  : JS.completion unit * DIDResolver :=
  if negb (isValidDID (doc_id doc)) then
    (JS.Throw (JS.Error ("Invalid DID: " +:+ doc_id doc)), r)
  else (JS.Return tt, mkResolver (<[doc_id doc := doc]> (documents r))).

(** [resolve(did)]: [None] is [null]. *)
Definition resolve (did : string) (r : DIDResolver) : option DIDDocument :=
  documents r !! did.

(** [exists(did)]. *)
Definition exists_ (did : string) (r : DIDResolver) : bool :=
  bool_decide (is_Some (documents r !! did)).

(** [deactivate(did)]. *)
Definition deactivate (did : string) (r : DIDResolver) : bool * DIDResolver :=
  (bool_decide (is_Some (documents r !! did)),
   mkResolver (delete did (documents r))).

End DID.

(** ** A concrete platform, for closed examples

    A platform without [crypto.subtle] (so the fallback hash of the source
    runs) and a serialiser that writes the [tokenData] object. *)

Module Ref.

Definition typeName (k : TIBETTokenType) : string :=
  match k with
  | bilateral_consent => "bilateral_consent"
  | unilateral_action => "unilateral_action"
  | verification => "verification"
  | revocation => "revocation"
  | delegation => "delegation"
  | audit => "audit"
  | threat => "threat"
  end.

Definition dquote : string := String (ascii_of_nat 34) "".

Definition quote (s : string) : string := dquote +:+ s +:+ dquote.

Fixpoint decimalLoop (fuel : nat) (n : Z) (acc : string) : string :=
  match fuel with
  | O => acc
  | S f =>
      let acc' := String (JS.hexDigit (n mod 10)) acc in
      if n / 10 =? 0 then acc' else decimalLoop f (n / 10) acc'
  end.

Definition decimal (z : Z) : string :=
  (if z <? 0 then "-" else "") +:+
  decimalLoop (S (Z.to_nat (Z.log2 (Z.abs z)))) (Z.abs z) "".

Fixpoint commaSep (l : list string) : string :=
  match l with
  | [] => ""
  | [s] => s
  | s :: rest => s +:+ "," +:+ commaSep rest
  end.

(** Printing of a value; a property whose value is [undefined] is left
    out of its object, and [undefined] in an array prints as [null]. The
    strings of the examples need no escaping. *)
Fixpoint stringifyValue (v : JS.value) : string :=
  match v with
  | JS.Undefined | JS.Null => "null"
  | JS.Bool b => if b then "true" else "false"
  | JS.Num z => decimal z
  | JS.Str s => quote s
  | JS.Arr items => "[" +:+ commaSep (map stringifyValue items) +:+ "]"
  | JS.Obj fields =>
      "{" +:+
      commaSep
        (omap (fun kv : string * JS.value =>
                 match kv.2 with
                 | JS.Undefined => None
                 | _ => Some (quote kv.1 +:+ ":" +:+ stringifyValue kv.2)
                 end) fields)
      +:+ "}"
  end.

Definition optional {A} (f : A -> JS.value) (o : option A) : JS.value :=
  match o with
  | Some a => f a
  | None => JS.Undefined
  end.

(** The [tokenData] object as a value, its properties in the order of the
    object literal. *)
Definition provenanceValue (p : WWWwProvenance) : JS.value :=
  JS.Obj [("what", what p);
          ("with", optional (fun l => JS.Arr (map JS.Str l)) (with_ p));
          ("where", optional JS.Obj (where_ p));
          ("why", JS.Str (why p))].

Definition tokenDataValue (d : TokenData) : JS.value :=
  JS.Obj [("tokenId", JS.Str (d_tokenId d));
          ("type", JS.Str (typeName (d_type d)));
          ("actor", JS.Str (d_actor d));
          ("provenance", provenanceValue (d_provenance d));
          ("timestamp", JS.Str (d_timestamp d));
          ("parentId", optional JS.Str (d_parentId d))].

Definition stringify (d : TokenData) : string :=
  stringifyValue (tokenDataValue d).

Definition subtle : option (string -> list Z) := None.

End Ref.

(** ** Vocabulary of the properties *)

(** The token [verify] works on: looked up for an identifier, taken as it is
    for an object. *)
Definition resolve (t : TIBET) (x : TokenOrId) : option TIBETToken :=
  match x with
  | ById id => getToken t id
  | ByToken tok => Some tok
  end.

(** The weighted sum as the specification words it: each facet contributes
    its weight when it holds, in binary64 arithmetic from left to right. *)
Definition weight (w : float) (b : bool) : float := if b then w else 0%float.

Definition weightedSum (sv ne ci at_ : bool) : float :=
  (weight 0.4 sv + weight 0.3 ne + weight 0.2 ci + weight 0.1 at_)%float.

(** The same sum in exact tenths. *)
Definition tenths (sv ne ci at_ : bool) : Z :=
  (if sv then 4 else 0) + (if ne then 3 else 0) + (if ci then 2 else 0)
  + (if at_ then 1 else 0).

(** [closeToTenths f k]: the binary64 number [f] is within [2^-52] of the
    rational [k/10]. *)
Definition closeToTenths (f : float) (k : Z) : bool :=
  match Prim2SF f with
  | S754_zero _ => k =? 0
  | S754_finite false m e =>
      (e <=? 0) &&
      (Z.abs (10 * Z.pos m * 2 ^ 52 - k * 2 ^ (- e) * 2 ^ 52) <=? 10 * 2 ^ (- e))
  | _ => false
  end.

Definition isAnonymous (tok : TIBETToken) : bool :=
  String.eqb (actor tok) "anonymous".

(** The store after a token object was added under the generated id. *)
Definition stored (t : TIBET) (id : string) (tok : TIBETToken) : TIBET :=
  mkTIBET (objects t ++ [tok]) (<[id := length (objects t)]> (tokens t))
          (defaultActor t).

(** The two [updateState] calls that end [accept] and [reject], after the
    response token [tok] was stored under the generated identifier [g]. *)
Definition respond (t : TIBET) (g pid : string) (tok : TIBETToken)
  (st : TIBETState) : TIBET :=
  let t1 := stored t g tok in
  let t2 := (updateState (tokenId (objects t1 !!! length (objects t))) st t1).2 in
  (updateState pid st t2).2.

(** The lineage of a token as the specification words it: the sequence from
    the earliest ancestor (a token with no [parentId], or with a [parentId]
    that does not resolve in the store) down to the token itself. *)
Inductive specLineage (t : TIBET) : TIBETToken -> list TIBETToken -> Prop :=
| specLineage_no_parent c :
    parentId c = None -> specLineage t c [c]
| specLineage_unresolved c pid :
    parentId c = Some pid -> getToken t pid = None -> specLineage t c [c]
| specLineage_parent c pid p l :
    parentId c = Some pid -> getToken t pid = Some p ->
    specLineage t p l -> specLineage t c (l ++ [c]).

(** The lineage with the stop rule amended to the test of the loop, which
    takes a [parentId] by its truthiness: the sequence ends at a token with
    no [parentId], with the empty string as [parentId], or with a [parentId]
    that does not resolve in the store. *)
Inductive lineage (t : TIBET) : TIBETToken -> list TIBETToken -> Prop :=
| lineage_no_parent c :
    JS.truthy_opt (parentId c) = false -> lineage t c [c]
| lineage_dangling c pid :
    parentId c = Some pid -> getToken t pid = None -> lineage t c [c]
| lineage_parent c pid p l :
    parentId c = Some pid -> JS.truthy_str pid = true ->
    getToken t pid = Some p -> lineage t p l -> lineage t c (l ++ [c]).

(** [parentEdge t parent child]: the token stored under [child] names
    [parent] as its parent, and [parent] resolves in the store. *)
Definition parentEdge (t : TIBET) (parent child : string) : Prop :=
  exists c p,
    getToken t child = Some c /\ parentId c = Some parent
    /\ JS.truthy_str parent = true /\ getToken t parent = Some p.

(** The proposal index and the token store agree: a proposal registered under
    an identifier wraps the very object the store holds under it. The
    constructor establishes this and every operation keeps it as long as
    [generateId] does not return the identifier of a registered proposal. *)
Definition aligned (m : BilateralConsentManager) : Prop :=
  forall id p,
    proposals m !! id = Some p ->
    tokens (tibet m) !! id = Some (token p)
    /\ (token p < length (objects (tibet m)))%nat.

Section Auxiliary.

Variable JSON_stringify : TokenData -> string.
Variable crypto_subtle : option (string -> list Z).

(** The digest [createToken] stores and [verify] recomputes. *)
Definition digestOf (tok : TIBETToken) : string :=
  generateSignature crypto_subtle (JSON_stringify (tokenDataOf tok)).

(** The token object [createToken] builds, given the expiry it computed. *)
Definition newToken (p : CreateParams) (env : Env) (t : TIBET) (e : option Z)
  : TIBETToken :=
  let actor := JS.or_str (p_actor p) (defaultActor t) in
  let provenance := mkProvenance (p_what p) (p_with p) (p_where p) (p_why p) in
  mkToken (gen_id env) (p_type p) actor provenance (ts_now env) CREATED
          (generateSignature crypto_subtle
             (JSON_stringify
                (mkTokenData (gen_id env) (p_type p) actor provenance
                             (ts_now env) (p_parentId p))))
          (p_parentId p) e (p_metadata p).

(** The argument [accept] passes to [createToken]. *)
Definition acceptParams (orig : TIBETToken) (pid who : string) (env : Env)
  : CreateParams :=
  mkParams bilateral_consent
           (JS.Obj [("action", JS.Str "consent_accepted");
                    ("originalAction",
                     JS.get_prop (what (provenance orig)) "action")])
           (with_ (provenance orig))
           (where_ (provenance orig))
           ("Accepted: " +:+ why (provenance orig))
           (Some who) (Some pid) None
           (Some [("responseType", JS.Str "acceptance");
                  ("acceptedAt", JS.Str (meta_now env))]).

(** The argument [reject] passes to [createToken]. *)
Definition rejectParams (orig : TIBETToken) (pid who : string)
  (why_ : option string) (env : Env) : CreateParams :=
  mkParams bilateral_consent
           (JS.Obj [("action", JS.Str "consent_rejected");
                    ("originalAction",
                     JS.get_prop (what (provenance orig)) "action")])
           (with_ (provenance orig))
           (where_ (provenance orig))
           (JS.or_str why_ ("Rejected: " +:+ why (provenance orig)))
           (Some who) (Some pid) None
           (Some [("responseType", JS.Str "rejection");
                  ("rejectedAt", JS.Str (meta_now env));
                  ("reason", optStr why_)]).

(** The recipient test of [accept]. *)
Definition recipientMismatch (orig : TIBETToken) (who : string) : bool :=
  let expectedTo := JS.get_prop (what (provenance orig)) "to" in
  JS.truthy expectedTo && JS.strict_ne_str expectedTo who.

End Auxiliary.

(** ** Concrete data

    Closed instances on the platform of [Ref], used below to exercise the
    theorems and to exhibit the inputs on which the code departs from the
    specification. *)

Definition alice : string := "did:jis:alice".
Definition bob : string := "did:jis:bob".
Definition carol : string := "did:jis:carol".

(** The environment of a call made at one instant. *)
Definition ex_env (iso id : string) (now : Z) : Env := mkEnv iso id iso now.

Definition ex_create (p : CreateParams) (env : Env) (t : TIBET)
  : JS.completion nat * TIBET :=
  createToken Ref.stringify Ref.subtle p env t.

Definition ex_verify (t : TIBET) (x : TokenOrId) (now : Z) : VerificationResult :=
  verify Ref.stringify Ref.subtle t x now.

(** A store of class [TIBET] owned by alice, with a root token [t1]. *)
Definition ex_rootParams : CreateParams :=
  mkParams unilateral_action (JS.Str "deploy") None None "release" None None
           None None.

Definition ex_store0 : TIBET := new_TIBET (Some alice).

Definition ex_store1 : TIBET :=
  (ex_create ex_rootParams (ex_env "1970-01-01T00:00:01.000Z" "t1" 1000) ex_store0).2.

(** A child of [t1] that expires five seconds after its creation. *)
Definition ex_childParams : CreateParams :=
  mkParams audit (JS.Str "review") None None "check" None (Some "t1")
           (Some 5000) None.

Definition ex_childEnv : Env := ex_env "1970-01-01T00:00:02.000Z" "t2" 2000.

Definition ex_store2 : TIBET := (ex_create ex_childParams ex_childEnv ex_store1).2.

(** A grandchild, to have a chain of three. *)
Definition ex_grandchildParams : CreateParams :=
  mkParams verification (JS.Str "sign-off") None None "approve" (Some bob)
           (Some "t2") None None.

Definition ex_store3 : TIBET :=
  (ex_create ex_grandchildParams (ex_env "1970-01-01T00:00:03.000Z" "t3" 3000) ex_store2).2.

Definition ex_tokenA : TIBETToken := ex_store3.(objects) !!! 0%nat.
Definition ex_tokenB : TIBETToken := ex_store3.(objects) !!! 1%nat.
Definition ex_tokenC : TIBETToken := ex_store3.(objects) !!! 2%nat.

(** A token created with [expiresIn = -1]. *)
Definition ex_expiredEnv : Env := ex_env "1970-01-01T00:00:01.000Z" "t1" 1000.

Definition ex_expiredStore : TIBET :=
  (ex_create (set_expiresIn (Some (-1)) ex_rootParams) ex_expiredEnv ex_store0).2.

(** The same in a store whose default actor is the anonymous sentinel. *)
Definition ex_expiredAnonymousStore : TIBET :=
  (ex_create (set_expiresIn (Some (-1)) ex_rootParams) ex_expiredEnv
             (new_TIBET None)).2.

(** A store whose two tokens name each other as parent, as [import] accepts
    it. *)
Definition ex_loopA : TIBETToken :=
  mkToken "a" audit alice (mkProvenance (JS.Str "x") None None "y") "" CREATED
          "" (Some "b") None None.

Definition ex_loopB : TIBETToken :=
  mkToken "b" audit alice (mkProvenance (JS.Str "x") None None "y") "" CREATED
          "" (Some "a") None None.

Definition ex_loopStore : TIBET :=
  import_ [("a", ex_loopA); ("b", ex_loopB)] (new_TIBET None).

(** A store, as [import] accepts it, in which the root of a chain of three
    is stored under the empty identifier. *)
Definition ex_rootUnderEmpty : TIBETToken :=
  mkToken "" audit alice (mkProvenance (JS.Str "x") None None "y") "" CREATED
          "" None None None.

Definition ex_childOfEmpty : TIBETToken :=
  mkToken "b" audit alice (mkProvenance (JS.Str "x") None None "y") "" CREATED
          "" (Some "") None None.

Definition ex_grandchildOfEmpty : TIBETToken :=
  mkToken "c" audit alice (mkProvenance (JS.Str "x") None None "y") "" CREATED
          "" (Some "b") None None.

Definition ex_emptyIdStore : TIBET :=
  import_ [("", ex_rootUnderEmpty); ("b", ex_childOfEmpty);
           ("c", ex_grandchildOfEmpty)] (new_TIBET None).

(** A manager in which alice proposed to bob. *)
Definition ex_propose (c : BilateralConsent) (env : Env)
  (m : BilateralConsentManager) : BilateralConsentManager :=
  (propose Ref.stringify Ref.subtle c env m).2.

Definition ex_accept (pid who : string) (env : Env) (m : BilateralConsentManager)
  : JS.completion ConsentResponse * BilateralConsentManager :=
  accept Ref.stringify Ref.subtle pid who env m.

Definition ex_reject (pid who : string) (why_ : option string) (env : Env)
  (m : BilateralConsentManager)
  : JS.completion ConsentResponse * BilateralConsentManager :=
  reject Ref.stringify Ref.subtle pid who why_ env m.

Definition ex_manager0 : BilateralConsentManager := new_Manager (Some alice).

Definition ex_proposed : BilateralConsentManager :=
  ex_propose (mkConsent alice bob "share-x" "reason" None None)
             (ex_env "1970-01-01T00:00:01.000Z" "p1" 1000) ex_manager0.

Definition ex_rejectEnv : Env := ex_env "1970-01-01T00:00:02.000Z" "r1" 2000.
Definition ex_acceptEnv : Env := ex_env "1970-01-01T00:00:03.000Z" "a1" 3000.

Definition ex_rejected : BilateralConsentManager :=
  (ex_reject "p1" bob (Some "no thanks") ex_rejectEnv ex_proposed).2.

Definition ex_accepted : BilateralConsentManager :=
  (ex_accept "p1" bob ex_acceptEnv ex_proposed).2.

(** A manager in which alice proposed to the empty recipient. *)
Definition ex_proposedToNobody : BilateralConsentManager :=
  ex_propose (mkConsent alice "" "share-x" "reason" None None)
             (ex_env "1970-01-01T00:00:01.000Z" "p1" 1000) ex_manager0.

(** ** Vocabulary of the further properties *)

(** Every reference of the [tokens] map points into the heap, as every
    reference of a running program does. *)
Definition wfStore (t : TIBET) : Prop :=
  forall id r, tokens t !! id = Some r -> (r < length (objects t))%nat.

(** The last entry of an [import] list under a key. *)
Fixpoint lastEntry (id : string) (entries : list (string * TIBETToken))
  : option TIBETToken :=
  match entries with
  | [] => None
  | (k, v) :: rest =>
      match lastEntry id rest with
      | Some x => Some x
      | None => if String.eqb k id then Some v else None
      end
  end.

(** The requested expiry is a non-zero duration that leads outside the range
    of [Date]. *)
Definition expiryOutOfRange (p : CreateParams) (env : Env) : bool :=
  match p_expiresIn p with
  | Some d => negb (d =? 0) && negb (JS.validTime (exp_now env + d))
  | None => false
  end.

(** The sixteen digits of [toString(16)]. *)
Definition isHexChar (c : ascii) : bool :=
  DID.between 48 57 c || DID.between 97 102 c.

(** Every key of the resolver is a valid identifier and is the [id] of the
    document stored under it. *)
Definition validRegistry (r : DID.DIDResolver) : Prop :=
  forall did doc,
    DID.documents r !! did = Some doc ->
    DID.isValidDID did = true /\ DID.doc_id doc = did.

(** The steps a builder takes after its construction. *)
Inductive BuilderStep : Type :=
| SetController (c : string)
| AddVerificationMethod (m : DID.VerificationMethod)
| AddAuthentication (methodId : string)
| AddAssertionMethod (methodId : string)
| AddService (s : DID.ServiceEndpoint)
| AddConsentService (endpoint : string)
| AddTibetService (endpoint : string).

Definition runStep (s : BuilderStep) (d : DID.DIDDocument) : DID.DIDDocument :=
  match s with
  | SetController c => DID.setController c d
  | AddVerificationMethod m => DID.addVerificationMethod m d
  | AddAuthentication methodId => DID.addAuthentication methodId d
  | AddAssertionMethod methodId => DID.addAssertionMethod methodId d
  | AddService s => DID.addService s d
  | AddConsentService endpoint => DID.addConsentService endpoint d
  | AddTibetService endpoint => DID.addTibetService endpoint d
  end.

(** A chain of builder calls, the first call first. *)
Definition runSteps (steps : list BuilderStep) (d : DID.DIDDocument)
  : DID.DIDDocument :=
  fold_left (fun acc s => runStep s acc) steps d.

(** The template filled with one character for each draw. *)
Fixpoint filledTemplate (tpl : string) (i : nat) (rand : nat -> Z) : string :=
  match tpl with
  | EmptyString => EmptyString
  | String c rest =>
      if Ascii.eqb c "x" then
        String (JS.hexDigit (rand i)) (filledTemplate rest (S i) rand)
      else if Ascii.eqb c "y" then
        String (JS.hexDigit (Z.lor (Z.land (rand i) 3) 8))
               (filledTemplate rest (S i) rand)
      else String c (filledTemplate rest i rand)
  end.

(** The argument [propose] passes to [createToken]. *)
Definition proposeParams (consent : BilateralConsent) (env : Env) : CreateParams :=
  mkParams bilateral_consent
           (JS.Obj [("action", JS.Str (c_action consent));
                    ("from", JS.Str (c_from consent));
                    ("to", JS.Str (c_to consent))])
           (Some [c_from consent; c_to consent])
           (c_context consent)
           (c_purpose consent)
           (Some (c_from consent))
           None
           (c_expiresIn consent)
           (Some [("consentType", JS.Str "bilateral");
                  ("proposedAt", JS.Str (meta_now env))]).

(** The store after [accept] or [reject] responded with [tok] to the
    proposal whose token is the object [r]. *)
Definition responded (t : TIBET) (g : string) (r : nat) (tok : TIBETToken)
  (st : TIBETState) : TIBET :=
  mkTIBET (<[r := set_state st (objects t !!! r)]> (objects t)
           ++ [set_state st tok])
          (<[g := length (objects t)]> (tokens t))
          (defaultActor t).

(** The manager right after a successful [propose]. *)
Definition proposedManager (m : BilateralConsentManager) (g : string)
  (ptok : TIBETToken) : BilateralConsentManager :=
  mkManager (stored (tibet m) g ptok)
            (<[g := mkProposal (length (objects (tibet m)))]> (proposals m)).


(** ** Concrete data of the further properties *)

Definition ex_grandchildEnv : Env := ex_env "1970-01-01T00:00:03.000Z" "t3" 3000.

(** A token that names a parent nobody created. *)
Definition ex_orphanParams : CreateParams :=
  mkParams audit (JS.Str "review") None None "check" None (Some "ghost")
           None None.

Definition ex_orphanEnv : Env := ex_env "1970-01-01T00:00:02.000Z" "t9" 2000.

Definition ex_orphanStore : TIBET :=
  (ex_create ex_orphanParams ex_orphanEnv ex_store1).2.

(** The chain of [t2]. *)
Definition ex_chainT2 : ProvenanceChain :=
  mkChain 2 [ex_tokenA; ex_tokenB] (Some ex_tokenA) (Some ex_tokenB).


(** Draws of [Math.random() * 16 | 0] that run through all digits. *)
Definition ex_rand (i : nat) : Z := Z.of_nat i mod 16.

(** The consent alice proposes to bob. *)
Definition ex_consent : BilateralConsent :=
  mkConsent alice bob "share-x" "reason" None None.

Definition ex_proposeEnv : Env := ex_env "1970-01-01T00:00:01.000Z" "p1" 1000.

(** What [createBilateralConsent] returns for it. *)
Definition ex_quick : QuickConsent :=
  mkQuick (mkProposal 0)
    (fun (_ : option string) (env' : Env) (m' : BilateralConsentManager) =>
       accept Ref.stringify Ref.subtle
              (tokenId (objects (tibet m') !!! 0%nat)) bob env' m')
    (fun (reason : option string) (env' : Env) (m' : BilateralConsentManager) =>
       reject Ref.stringify Ref.subtle
              (tokenId (objects (tibet m') !!! 0%nat)) bob reason env' m').

(** The document of alice, and a registry that holds it. *)
Definition ex_aliceDoc : DID.DIDDocument :=
  match DID.newBuilder alice with
  | JS.Return d =>
      DID.build (runSteps [AddAuthentication "did:jis:alice#key-1";
                           AddConsentService "https://example.org/consent"] d)
  | JS.Throw _ => DID.mkDocument [] "" None None None None None
  end.

Definition ex_registry : DID.DIDResolver :=
  (DID.register ex_aliceDoc DID.newResolver).2.
(** ** Properties of the verifier *)

Section VerifierProperties.

Variable JSON_stringify : TokenData -> string.
Variable crypto_subtle : option (string -> list Z).

Local Abbreviation sign := (generateSignature crypto_subtle).
Local Abbreviation verify' := (verify JSON_stringify crypto_subtle).
Local Abbreviation createToken' := (createToken JSON_stringify crypto_subtle).
Local Abbreviation digestOf' := (digestOf JSON_stringify crypto_subtle).
Local Abbreviation newToken' := (newToken JSON_stringify crypto_subtle).

Lemma createToken_unfold p env t :
  createToken' p env t
  = match expiryOf (p_expiresIn p) (exp_now env) with
    | JS.Throw x => (JS.Throw x, t)
    | JS.Return e =>
        (JS.Return (length (objects t)),
         stored t (gen_id env) (newToken' p env t e))
    end.
Proof. reflexivity. Qed.

Lemma stored_lookup_new t id tok :
  objects (stored t id tok) !! length (objects t) = Some tok.
Proof.
  unfold stored. cbn [objects].
  rewrite lookup_app_r by lia. rewrite Nat.sub_diag. reflexivity.
Qed.

Lemma getToken_stored_new t id tok : getToken (stored t id tok) id = Some tok.
Proof.
  unfold getToken. cbn [tokens stored]. rewrite lookup_insert_eq.
  apply stored_lookup_new.
Qed.

Lemma getToken_stored_old t id tok id' tok' :
  getToken t id' = Some tok' -> id' <> id ->
  getToken (stored t id tok) id' = Some tok'.
Proof.
  unfold getToken. cbn [tokens objects stored]. intros H Hne.
  rewrite lookup_insert_ne by congruence.
  destruct (tokens t !! id') as [r|]; [| discriminate].
  rewrite lookup_app_l by (eapply lookup_lt_Some; eauto). exact H.
Qed.

Lemma getToken_stored_some t id tok id' :
  is_Some (getToken t id') -> is_Some (getToken (stored t id tok) id').
Proof.
  intros [tok' H]. destruct (decide (id' = id)) as [->|Hne].
  - rewrite getToken_stored_new. eauto.
  - erewrite getToken_stored_old; eauto.
Qed.

Lemma verify_resolved t x now tok :
  resolve t x = Some tok ->
  verify' t x now = verify' t (ByToken tok) now.
Proof.
  destruct x as [id|tok']; simpl; intros H.
  - unfold verify. rewrite H. reflexivity.
  - congruence.
Qed.

Lemma verify_unresolved t id now :
  getToken t id = None ->
  verify' t (ById id) now =
  mkResult false id 0%float (mkDetails false false false false)
           (Some "Token not found").
Proof. intros H. unfold verify. rewrite H. reflexivity. Qed.

Lemma verify_signatureValid t tok now :
  signatureValid (details (verify' t (ByToken tok) now))
  = String.eqb (signature tok) (digestOf' tok).
Proof. reflexivity. Qed.

Lemma verify_notExpired t tok now :
  notExpired (details (verify' t (ByToken tok) now))
  = match expiresAt tok with Some e => now <? e | None => true end.
Proof. reflexivity. Qed.

Lemma verify_chainIntact t tok now :
  chainIntact (details (verify' t (ByToken tok) now))
  = match parentId tok with
    | Some pid =>
        if JS.truthy_str pid then
          match getToken t pid with Some _ => true | None => false end
        else true
    | None => true
    end.
Proof. reflexivity. Qed.

Lemma verify_actorTrusted t tok now :
  actorTrusted (details (verify' t (ByToken tok) now)) = negb (isAnonymous tok).
Proof. reflexivity. Qed.

Lemma verify_valid t tok now :
  let r := verify' t (ByToken tok) now in
  valid r
  = signatureValid (details r) && notExpired (details r) && chainIntact (details r).
Proof. reflexivity. Qed.

(** The sequence of conditional increments of [verify] computes the weighted
    sum, and that sum is the exact one up to binary64 rounding. *)
Lemma verify_trustScore t tok now :
  let r := verify' t (ByToken tok) now in
  trustScore r
  = weightedSum (signatureValid (details r)) (notExpired (details r))
                (chainIntact (details r)) (actorTrusted (details r)).
Proof.
  cbv zeta. unfold verify. cbv zeta. cbn [trustScore details signatureValid notExpired chainIntact actorTrusted].
  generalize (String.eqb (signature tok) (sign (JSON_stringify (tokenDataOf tok)))).
  generalize (negb (String.eqb (actor tok) "anonymous")).
  generalize (match expiresAt tok with Some e => now <? e | None => true end).
  generalize (match parentId tok with
              | Some pid =>
                  if JS.truthy_str pid then
                    match getToken t pid with Some _ => true | None => false end
                  else true
              | None => true
              end).
  intros [] [] [] []; reflexivity.
Qed.

Lemma weightedSum_close sv ne ci at_ :
  closeToTenths (weightedSum sv ne ci at_) (tenths sv ne ci at_) = true.
Proof. destruct sv, ne, ci, at_; vm_compute; reflexivity. Qed.

(** C1. For every token the verifier resolves, [valid] holds exactly when
    [signatureValid], [notExpired] and [chainIntact] all hold (so
    [actorTrusted] plays no part in it), and [trustScore] is the sum of 0.4
    if [signatureValid], 0.3 if [notExpired], 0.2 if [chainIntact] and 0.1 if
    the actor is not the anonymous sentinel. The sum is the binary64 one,
    taken from left to right; it lies within [2^-52] of the exact sum in
    tenths. *)
Theorem verify_valid_iff_and_trustScore t x now tok :
  resolve t x = Some tok ->
  let r := verify' t x now in
  let sv := signatureValid (details r) in
  let ne := notExpired (details r) in
  let ci := chainIntact (details r) in
  let trusted := negb (String.eqb (actor tok) "anonymous") in
  (valid r = true <-> sv = true /\ ne = true /\ ci = true)
  /\ trustScore r = weightedSum sv ne ci trusted
  /\ closeToTenths (trustScore r) (tenths sv ne ci trusted) = true
  /\ actorTrusted (details r) = trusted
  /\ error r = None.
Proof.
  intros Hres. cbv zeta. rewrite (verify_resolved _ _ _ _ Hres).
  pose proof (verify_valid t tok now) as Hv. cbv zeta in Hv.
  pose proof (verify_trustScore t tok now) as Hs. cbv zeta in Hs.
  rewrite verify_actorTrusted in Hs. unfold isAnonymous in Hs.
  split; [| split; [| split; [| split]]].
  - rewrite Hv. rewrite !andb_true_iff. tauto.
  - exact Hs.
  - rewrite Hs. apply weightedSum_close.
  - reflexivity.
  - reflexivity.
Qed.

(** [signatureValid] of a token object reads only the six canonical fields
    and the stored signature. *)
Lemma signatureValid_canonical t1 t2 now1 now2 tok1 tok2 :
  tokenDataOf tok1 = tokenDataOf tok2 ->
  signature tok1 = signature tok2 ->
  signatureValid (details (verify' t1 (ByToken tok1) now1))
  = signatureValid (details (verify' t2 (ByToken tok2) now2)).
Proof.
  intros Hd Hs. rewrite !verify_signatureValid. unfold digestOf'.
  rewrite Hd, Hs. reflexivity.
Qed.

Lemma getToken_updateState t id st id' :
  getToken (updateState id st t).2 id'
  = (if decide (tokens t !! id = tokens t !! id' /\ is_Some (tokens t !! id))
     then set_state st else (fun x => x)) <$> getToken t id'.
Proof.
  unfold updateState, getToken.
  destruct (tokens t !! id) as [r|] eqn:Hr; simpl.
  - assert (Hins : <[id := r]> (tokens t) = tokens t) by (apply insert_id; exact Hr).
    rewrite Hins.
    destruct (tokens t !! id') as [r'|] eqn:Hr'.
    + destruct (decide (r = r')) as [->|Hne].
      * rewrite decide_True by (split; [reflexivity | eauto]).
        destruct (objects t !! r') as [tok|] eqn:Ho.
        -- rewrite list_lookup_insert_eq by (eapply lookup_lt_Some; eauto).
           rewrite (list_lookup_total_correct _ _ _ Ho). reflexivity.
        -- rewrite list_insert_ge by (apply lookup_ge_None; exact Ho).
           rewrite Ho. reflexivity.
      * rewrite decide_False by (intros [He _]; congruence).
        rewrite list_lookup_insert_ne by exact Hne.
        destruct (objects t !! r'); reflexivity.
    + reflexivity.
  - destruct (tokens t !! id') as [r'|]; [| reflexivity].
    rewrite decide_False by (intros [_ [? ?]]; congruence).
    destruct (objects t !! r'); reflexivity.
Qed.

(** C6. The digest covers only the canonical fields (id, kind, actor,
    provenance, createdAt, parentId): changing [state], [expiresAt] or
    [metadata] of a token leaves [signatureValid] as it was, whether the
    token is verified as an object or looked up after [updateState]; and the
    digest [createToken] stores is the same whatever [expiresIn] and
    [metadata] it is given. *)
Theorem signatureValid_ignores_state_expiresAt_metadata
  t t2 tok st ex md now now2 id p env d :
  signatureValid
    (details (verify' t
                (ByToken (set_state st (set_expiresAt ex (set_metadata md tok))))
                now))
  = signatureValid (details (verify' t2 (ByToken tok) now2))
  /\ signatureValid (details (verify' (updateState id st t).2 (ById id) now))
     = signatureValid (details (verify' t (ById id) now2))
  /\ match createToken' p env t,
           createToken' (set_expiresIn d (set_p_metadata md p)) env t with
     | (JS.Return r, t1), (JS.Return r', t1') =>
         signature <$> objects t1 !! r = signature <$> objects t1' !! r'
         /\ signature <$> objects t1 !! r
            = Some (sign (JSON_stringify
                            (mkTokenData (gen_id env) (p_type p)
                               (JS.or_str (p_actor p) (defaultActor t))
                               (mkProvenance (p_what p) (p_with p) (p_where p)
                                             (p_why p))
                               (ts_now env) (p_parentId p))))
     | _, _ => True
     end.
Proof.
  split; [| split].
  - apply signatureValid_canonical; reflexivity.
  - destruct (getToken t id) as [tok0|] eqn:Hg.
    + assert (Hg' : exists tok1, getToken (updateState id st t).2 id = Some tok1
                                 /\ tokenDataOf tok1 = tokenDataOf tok0
                                 /\ signature tok1 = signature tok0).
      { rewrite getToken_updateState, Hg. simpl.
        destruct (decide _); eexists; split; try reflexivity; split; reflexivity. }
      destruct Hg' as (tok1 & Hg1 & Hd & Hs).
      rewrite (verify_resolved _ (ById id) _ tok1) by exact Hg1.
      rewrite (verify_resolved _ (ById id) _ tok0) by exact Hg.
      apply signatureValid_canonical; assumption.
    + rewrite !verify_unresolved; [reflexivity | exact Hg |].
      rewrite getToken_updateState, Hg. reflexivity.
  - rewrite !createToken_unfold. cbn [p_expiresIn set_expiresIn].
    destruct (expiryOf (p_expiresIn p) (exp_now env)) as [e1|x1];
      destruct (expiryOf d (exp_now env)) as [e2|x2]; try exact I.
    rewrite !stored_lookup_new. split; reflexivity.
Qed.

(** C10. Verifying a token object never yields the not-found result: the
    object itself is checked, whether or not the store holds a token with its
    identifier; a token that was never persisted but carries the digest of
    its canonical fields gets [signatureValid = true], even from an empty
    store. *)
Theorem verify_object_is_never_not_found t tok now actor0 :
  let signed := set_signature (digestOf' tok) tok in
  error (verify' t (ByToken tok) now) = None
  /\ vr_tokenId (verify' t (ByToken tok) now) = tokenId tok
  /\ signatureValid (details (verify' t (ByToken signed) now)) = true
  /\ getToken (new_TIBET actor0) (tokenId signed) = None
  /\ signatureValid (details (verify' (new_TIBET actor0) (ByToken signed) now))
     = true.
Proof.
  cbv zeta.
  assert (Hs : forall s, signatureValid
                 (details (verify' s (ByToken (set_signature (digestOf' tok) tok)) now))
               = true).
  { intros s. rewrite verify_signatureValid. apply String.eqb_refl. }
  repeat split; try apply Hs; reflexivity.
Qed.

(** *** Creation followed by verification *)

Lemma expiryOf_Return ei now e :
  expiryOf ei now = JS.Return e ->
  (e = None /\ JS.truthy_num ei = false)
  \/ (exists d, ei = Some d /\ d <> 0 /\ e = Some (now + d)
                /\ JS.validTime (now + d) = true).
Proof.
  unfold expiryOf, JS.toISOString. destruct ei as [d|]; simpl.
  - destruct (Z.eqb_spec d 0) as [->|Hd]; simpl.
    + intros [= <-]. left. split; reflexivity.
    + destruct (JS.validTime (now + d)) eqn:Hv; [| discriminate].
      intros [= <-]. right. exists d. repeat split; assumption.
  - intros [= <-]. left. split; reflexivity.
Qed.

(** When a non-zero [expiresIn] is supplied and the resulting date is valid,
    [expiresAt] is the clock reading plus [expiresIn]; when none is supplied,
    [expiresAt] is absent. *)
Lemma createToken_expiresAt p env t :
  match p_expiresIn p with
  | Some d =>
      d <> 0 -> JS.validTime (exp_now env + d) = true ->
      (createToken' p env t).1 = JS.Return (length (objects t))
      /\ expiresAt <$> objects (createToken' p env t).2 !! length (objects t)
         = Some (Some (exp_now env + d))
  | None =>
      (createToken' p env t).1 = JS.Return (length (objects t))
      /\ expiresAt <$> objects (createToken' p env t).2 !! length (objects t)
         = Some None
  end.
Proof.
  rewrite createToken_unfold.
  destruct (p_expiresIn p) as [d|].
  - intros Hd Hv.
    assert (He : expiryOf (Some d) (exp_now env) = JS.Return (Some (exp_now env + d))).
    { unfold expiryOf, JS.toISOString. simpl.
      destruct (Z.eqb_spec d 0) as [|_]; [contradiction |].
      simpl. rewrite Hv. reflexivity. }
    rewrite He. cbn [fst snd]. rewrite stored_lookup_new. split; reflexivity.
  - change (expiryOf None (exp_now env)) with (@JS.Return (option Z) None).
    cbn [fst snd]. rewrite stored_lookup_new. split; reflexivity.
Qed.

Lemma createToken_Return p env t r t' :
  createToken' p env t = (JS.Return r, t') ->
  exists e, expiryOf (p_expiresIn p) (exp_now env) = JS.Return e
            /\ r = length (objects t)
            /\ t' = stored t (gen_id env) (newToken' p env t e).
Proof.
  rewrite createToken_unfold.
  destruct (expiryOf (p_expiresIn p) (exp_now env)) as [e|x]; [| discriminate].
  intros [= <- <-]. exists e. repeat split.
Qed.

Lemma newToken_signatureValid p env t e s now :
  signatureValid (details (verify' s (ByToken (newToken' p env t e)) now)) = true.
Proof. rewrite verify_signatureValid. apply String.eqb_refl. Qed.

(** C2. Verifying a token right after creating it, by its identifier or as
    the returned object and with the store as [createToken] left it, gives
    [valid = true] with [signatureValid], [notExpired] and [chainIntact] all
    true; [actorTrusted] is false exactly when the token's actor is the
    anonymous sentinel, and the trust score drops by that one weight only.
    Valid creation inputs are those whose [parentId], when given, resolves in
    the store and whose requested expiry lies after the verification
    instant. *)
Theorem verify_after_createToken p env t r t' now :
  createToken' p env t = (JS.Return r, t') ->
  (forall pid, p_parentId p = Some pid -> JS.truthy_str pid = true ->
               is_Some (getToken t pid)) ->
  (forall d, p_expiresIn p = Some d -> now < exp_now env + d) ->
  exists tok,
    objects t' !! r = Some tok
    /\ getToken t' (gen_id env) = Some tok
    /\ actor tok = JS.or_str (p_actor p) (defaultActor t)
    /\ forall x, x = ById (gen_id env) \/ x = ByToken tok ->
         let res := verify' t' x now in
         valid res = true
         /\ signatureValid (details res) = true
         /\ notExpired (details res) = true
         /\ chainIntact (details res) = true
         /\ (actorTrusted (details res) = false <-> actor tok = "anonymous")
         /\ trustScore res
            = (if actorTrusted (details res) then 0.9999999999999999
               else 0.8999999999999999)%float.
Proof.
  intros Hc Hparent Hexp.
  destruct (createToken_Return _ _ _ _ _ Hc) as (e & He & -> & ->).
  set (tok := newToken' p env t e).
  exists tok. split; [apply stored_lookup_new |].
  split; [apply getToken_stored_new |].
  split; [reflexivity |].
  intros x Hx.
  assert (Hr : resolve (stored t (gen_id env) tok) x = Some tok).
  { destruct Hx as [-> | ->]; [apply getToken_stored_new | reflexivity]. }
  cbv zeta. rewrite (verify_resolved _ _ _ _ Hr).
  set (s := stored t (gen_id env) tok).
  assert (Hsv : signatureValid (details (verify' s (ByToken tok) now)) = true)
    by apply newToken_signatureValid.
  assert (Hne : notExpired (details (verify' s (ByToken tok) now)) = true).
  { rewrite verify_notExpired. subst tok. cbn [expiresAt newToken].
    destruct (expiryOf_Return _ _ _ He) as [[-> _] | (d & Hd & _ & -> & _)].
    - reflexivity.
    - apply Z.ltb_lt. apply Hexp. exact Hd. }
  assert (Hci : chainIntact (details (verify' s (ByToken tok) now)) = true).
  { rewrite verify_chainIntact. subst tok. cbn [parentId newToken].
    destruct (p_parentId p) as [pid|] eqn:Hp; [| reflexivity].
    destruct (JS.truthy_str pid) eqn:Htr; [| reflexivity].
    destruct (getToken_stored_some t (gen_id env) (newToken' p env t e) pid
                (Hparent pid eq_refl Htr)) as [tok' Hg].
    subst s. rewrite Hg. reflexivity. }
  pose proof (verify_trustScore s tok now) as Hts. cbv zeta in Hts.
  pose proof (verify_valid s tok now) as Hv. cbv zeta in Hv.
  rewrite Hsv, Hne, Hci in Hts, Hv.
  split; [exact Hv |]. split; [exact Hsv |]. split; [exact Hne |].
  split; [exact Hci |]. split.
  - rewrite verify_actorTrusted. unfold isAnonymous.
    rewrite negb_false_iff. apply String.eqb_eq.
  - rewrite Hts. destruct (actorTrusted _); reflexivity.
Qed.

(** C4 (amended). A token created with [expiresIn = -1] and verified at an
    instant not before its creation has [notExpired = false] and
    [valid = false]; its trust score lacks the 0.3 of [notExpired] and is at
    most 0.4 + 0.2 + 0.1, that is 0.7000000000000001 in binary64. *)
Theorem verify_created_expired p env t r t' now x :
  createToken' (set_expiresIn (Some (-1)) p) env t = (JS.Return r, t') ->
  exp_now env <= now ->
  x = ById (gen_id env)
  \/ (exists tok, objects t' !! r = Some tok /\ x = ByToken tok) ->
  let res := verify' t' x now in
  notExpired (details res) = false
  /\ valid res = false
  /\ trustScore res
     = weightedSum (signatureValid (details res)) false (chainIntact (details res))
                   (actorTrusted (details res))
  /\ (trustScore res <=? 0.7000000000000001)%float = true.
Proof.
  intros Hc Hnow Hx.
  destruct (createToken_Return _ _ _ _ _ Hc) as (e & He & -> & ->).
  set (tok := newToken' (set_expiresIn (Some (-1)) p) env t e) in *.
  assert (Hr : resolve (stored t (gen_id env) tok) x = Some tok).
  { destruct Hx as [-> | (tok' & Hl & ->)]; [apply getToken_stored_new |].
    rewrite stored_lookup_new in Hl. simpl. congruence. }
  cbv zeta. rewrite (verify_resolved _ _ _ _ Hr).
  set (s := stored t (gen_id env) tok).
  assert (Hne : notExpired (details (verify' s (ByToken tok) now)) = false).
  { rewrite verify_notExpired. subst tok. cbn [expiresAt newToken].
    destruct (expiryOf_Return _ _ _ He) as [[_ Hf] | (d & Hd & _ & -> & _)].
    - discriminate Hf.
    - cbn [p_expiresIn set_expiresIn] in Hd. injection Hd as <-.
      apply Z.ltb_ge. lia. }
  pose proof (verify_trustScore s tok now) as Hts. cbv zeta in Hts.
  pose proof (verify_valid s tok now) as Hv. cbv zeta in Hv.
  rewrite Hne in Hts, Hv.
  split; [exact Hne |]. split.
  - rewrite Hv. rewrite andb_false_r. reflexivity.
  - split; [exact Hts |]. rewrite Hts.
    destruct (signatureValid _), (chainIntact _), (actorTrusted _); reflexivity.
Qed.

(** C9 (the defect). A token created with [expiresIn = 0] gets no
    [expiresAt] at all: the truthiness test of [createToken] takes the zero
    duration for an absent one, so the token never expires. *)
Theorem createToken_zero_expiresIn_has_no_expiry p env t now :
  let res := createToken' (set_expiresIn (Some 0) p) env t in
  res.1 = JS.Return (length (objects t))
  /\ expiresAt <$> objects res.2 !! length (objects t) = Some None
  /\ notExpired (details (verify' res.2 (ById (gen_id env)) now)) = true.
Proof.
  cbv zeta. rewrite createToken_unfold. cbn [p_expiresIn set_expiresIn].
  unfold expiryOf. cbn [JS.truthy_num Z.eqb negb fst snd].
  rewrite stored_lookup_new.
  split; [reflexivity |]. split; [reflexivity |].
  erewrite verify_resolved by (simpl; apply getToken_stored_new).
  reflexivity.
Qed.

End VerifierProperties.

(** ** Properties of the chain walker *)

Section ChainWalker.

Variable t : TIBET.

Lemma parentOf_Some c p :
  parentOf t c = Some p <->
  exists pid, parentId c = Some pid /\ JS.truthy_str pid = true
              /\ getToken t pid = Some p.
Proof.
  unfold parentOf. split.
  - destruct (parentId c) as [pid|]; [| discriminate].
    destruct (JS.truthy_str pid) eqn:Htr; [| discriminate].
    intros H. exists pid. auto.
  - intros (pid & -> & -> & H). exact H.
Qed.

Lemma parentOf_None c :
  parentOf t c = None ->
  JS.truthy_opt (parentId c) = false
  \/ exists pid, parentId c = Some pid /\ getToken t pid = None.
Proof.
  unfold parentOf, JS.truthy_opt. destruct (parentId c) as [pid|]; [| auto].
  destruct (JS.truthy_str pid); [| auto].
  intros H. right. exists pid. auto.
Qed.

Lemma walk_done fuel acc : walk fuel t acc None = Some acc.
Proof. destruct fuel; reflexivity. Qed.

Lemma walk_step fuel acc c :
  walk (S fuel) t acc (Some c) = walk fuel t (c :: acc) (parentOf t c).
Proof. reflexivity. Qed.

(** More fuel never changes a result. *)
Lemma walk_more_fuel fuel : forall acc cur l fuel',
  walk fuel t acc cur = Some l -> (fuel <= fuel')%nat ->
  walk fuel' t acc cur = Some l.
Proof.
  induction fuel as [|fuel IH]; intros acc cur l fuel' H Hle.
  - destruct cur as [c|]; [discriminate |].
    rewrite walk_done. exact H.
  - destruct cur as [c|].
    + destruct fuel' as [|fuel']; [lia |].
      rewrite walk_step in *. eapply IH; [exact H | lia].
    + rewrite walk_done. exact H.
Qed.

(** What the loop accumulates is the lineage, in front of what was there. *)
Lemma walk_lineage fuel : forall acc c l,
  walk fuel t acc (Some c) = Some l ->
  exists l0, lineage t c l0 /\ l = l0 ++ acc.
Proof.
  induction fuel as [|fuel IH]; intros acc c l H; [discriminate |].
  rewrite walk_step in H.
  destruct (parentOf t c) as [p|] eqn:Hp.
  - destruct (IH _ _ _ H) as (l1 & Hl1 & ->).
    apply parentOf_Some in Hp. destruct Hp as (pid & Hpid & Htr & Hg).
    exists (l1 ++ [c]). split.
    + eapply lineage_parent; eauto.
    + rewrite <- app_assoc. reflexivity.
  - rewrite walk_done in H. injection H as <-.
    exists [c]. split; [| reflexivity].
    destruct (parentOf_None _ Hp) as [Hf | (pid & Hpid & Hg)].
    + apply lineage_no_parent. exact Hf.
    + eapply lineage_dangling; eauto.
Qed.

(** Conversely, the loop reaches the lineage in as many turns as it is long. *)
Lemma lineage_walk c l :
  lineage t c l -> forall acc, walk (length l) t acc (Some c) = Some (l ++ acc).
Proof.
  induction 1 as [c Hf | c pid Hpid Hg | c pid p l Hpid Htr Hg Hl IH]; intros acc.
  - cbn [length]. rewrite walk_step.
    assert (Hp : parentOf t c = None).
    { unfold parentOf. unfold JS.truthy_opt in Hf.
      destruct (parentId c); [rewrite Hf |]; reflexivity. }
    rewrite Hp, walk_done. reflexivity.
  - cbn [length]. rewrite walk_step.
    assert (Hp : parentOf t c = None).
    { unfold parentOf. rewrite Hpid, Hg. destruct (JS.truthy_str pid); reflexivity. }
    rewrite Hp, walk_done. reflexivity.
  - rewrite length_app. cbn [length]. rewrite Nat.add_1_r, walk_step.
    assert (Hp : parentOf t c = Some p).
    { apply parentOf_Some. eauto. }
    rewrite Hp, IH, <- app_assoc. reflexivity.
Qed.

Lemma lineage_last c l : lineage t c l -> l !! (length l - 1)%nat = Some c.
Proof.
  destruct 1; try reflexivity.
  rewrite length_app. cbn [length].
  rewrite lookup_app_r by lia.
  replace (length l + 1 - 1 - length l)%nat with 0%nat by lia. reflexivity.
Qed.

Lemma getChain_more_fuel fuel fuel' id r :
  getChain fuel t id = Some r -> (fuel <= fuel')%nat ->
  getChain fuel' t id = Some r.
Proof.
  unfold getChain. destruct (getToken t id) as [c|]; [| auto].
  destruct (walk fuel t [] (Some c)) as [l|] eqn:Hw; [| discriminate].
  intros H Hle. rewrite (walk_more_fuel _ _ _ _ _ Hw Hle). exact H.
Qed.

Lemma getChain_of_lineage id c l :
  getToken t id = Some c -> lineage t c l ->
  getChain (length l) t id
  = Some (Some (mkChain (length l) l (l !! 0%nat) (Some c))).
Proof.
  intros Hg Hl. unfold getChain. rewrite Hg, (lineage_walk _ _ Hl).
  rewrite app_nil_r, (lineage_last _ _ Hl). reflexivity.
Qed.

(** The walk from a token ends when the parent links above its identifier
    are well founded. *)
Lemma walk_terminates id :
  Acc (parentEdge t) id ->
  forall c acc, getToken t id = Some c ->
  exists fuel l, walk fuel t acc (Some c) = Some l.
Proof.
  induction 1 as [id _ IH]. intros c acc Hg.
  destruct (parentOf t c) as [p|] eqn:Hp.
  - pose proof Hp as Hp'. apply parentOf_Some in Hp'.
    destruct Hp' as (pid & Hpid & Htr & Hgp).
    destruct (IH pid (ex_intro _ c (ex_intro _ p (conj Hg (conj Hpid (conj Htr Hgp)))))
                p (c :: acc) Hgp) as (fuel & l & Hw).
    exists (S fuel), l. rewrite walk_step, Hp. exact Hw.
  - exists 1%nat, (c :: acc). rewrite walk_step, Hp. reflexivity.
Qed.

(** In a store where no identifier is its own ancestor, the parent links are
    well founded above every identifier: the ancestors of an identifier are
    among the finitely many keys of the store. *)
Lemma acyclic_well_founded :
  (forall x, ~ tc (flip (parentEdge t)) x x) ->
  forall id, Acc (parentEdge t) id.
Proof.
  intros Hirr id.
  assert (Hlast : forall x y, tc (flip (parentEdge t)) x y ->
                              exists z, parentEdge t y z).
  { induction 1 as [x y Hxy | x y z _ _ IH]; [exists x; exact Hxy | exact IH]. }
  change (sn (flip (parentEdge t)) id).
  apply tc_finite_sn; [exact Hirr |].
  exists (elements (dom (tokens t))). intros x Hx.
  destruct (Hlast _ _ Hx) as (z & c & p & _ & _ & _ & Hg).
  apply elem_of_elements, elem_of_dom.
  unfold getToken in Hg. destruct (tokens t !! x); [eauto | discriminate].
Qed.

Lemma specLineage_lineage :
  getToken t "" = None ->
  forall tok l, specLineage t tok l <-> lineage t tok l.
Proof.
  intros Hempty tok l. split.
  - induction 1 as [c Hp | c pid Hp Hg | c pid p l Hp Hg _ IH].
    + apply lineage_no_parent. rewrite Hp. reflexivity.
    + eapply lineage_dangling; eassumption.
    + eapply lineage_parent; [exact Hp | | exact Hg | exact IH].
      unfold JS.truthy_str. apply negb_true_iff, String.eqb_neq.
      intros ->. rewrite Hempty in Hg. discriminate.
  - induction 1 as [c Hf | c pid Hp Hg | c pid p l Hp _ Hg _ IH].
    + destruct (parentId c) as [pid|] eqn:Hp;
        [| apply specLineage_no_parent; exact Hp].
      apply (specLineage_unresolved t c pid Hp).
      unfold JS.truthy_opt, JS.truthy_str in Hf.
      apply negb_false_iff, String.eqb_eq in Hf. subst pid. exact Hempty.
    + eapply specLineage_unresolved; eassumption.
    + eapply specLineage_parent; eassumption.
Qed.

(** C7 (amended). With A (no parent), B (parent A) and C (parent B) in the
    store, A and B under non-empty identifiers, [getChain] of C's identifier
    returns length 3, tokens [A; B; C], origin A and current C. In general a
    returned chain is the lineage of the requested token by the test of the
    loop: ancestors first, ending at a token with no [parentId], with the
    empty [parentId] or with a [parentId] that does not resolve; and every
    such lineage is returned. In a store that holds nothing under the empty
    identifier this is the lineage as the specification words it. *)
Theorem getChain_is_lineage a b c A B C :
  getToken t a = Some A -> getToken t b = Some B -> getToken t c = Some C ->
  parentId A = None -> parentId B = Some a -> parentId C = Some b ->
  a <> "" -> b <> "" ->
  (forall fuel, (3 <= fuel)%nat ->
     getChain fuel t c = Some (Some (mkChain 3 [A; B; C] (Some A) (Some C))))
  /\ (forall fuel id ch,
        getChain fuel t id = Some (Some ch) ->
        exists tok,
          getToken t id = Some tok
          /\ lineage t tok (chain_tokens ch)
          /\ chain_length ch = length (chain_tokens ch)
          /\ origin ch = chain_tokens ch !! 0%nat
          /\ current ch = Some tok)
  /\ (forall id tok l,
        getToken t id = Some tok -> lineage t tok l ->
        getChain (length l) t id
        = Some (Some (mkChain (length l) l (l !! 0%nat) (Some tok))))
  /\ (getToken t "" = None ->
      forall tok l, specLineage t tok l <-> lineage t tok l).
Proof.
  intros HA HB HC HpA HpB HpC Ha Hb.
  assert (Htr : forall s, s <> "" -> JS.truthy_str s = true).
  { intros s Hs. unfold JS.truthy_str. apply negb_true_iff.
    apply String.eqb_neq. exact Hs. }
  split; [| split; [| split]]; [| | | exact specLineage_lineage].
  - intros fuel Hfuel.
    assert (HlA : lineage t A [A]).
    { apply lineage_no_parent. rewrite HpA. reflexivity. }
    assert (HlB : lineage t B ([A] ++ [B])).
    { eapply lineage_parent; eauto. }
    assert (HlC : lineage t C (([A] ++ [B]) ++ [C])).
    { eapply lineage_parent; eauto. }
    eapply getChain_more_fuel; [| exact Hfuel].
    exact (getChain_of_lineage c C _ HC HlC).
  - intros fuel id ch H. unfold getChain in H.
    destruct (getToken t id) as [tok|] eqn:Hg; [| discriminate].
    destruct (walk fuel t [] (Some tok)) as [l|] eqn:Hw; [| discriminate].
    injection H as <-. cbn [chain_tokens chain_length origin current].
    destruct (walk_lineage _ _ _ _ Hw) as (l0 & Hl0 & ->).
    rewrite app_nil_r. exists tok. repeat split; try assumption.
    apply lineage_last. exact Hl0.
  - intros id tok l. apply getChain_of_lineage.
Qed.

(** C5 (amended). Where the parent links above [id] are well founded, as
    they are in every store without a cycle, [getChain] terminates: some
    amount of fuel yields its result, and any larger amount yields the same.
    The loop has no guard of its own against a cycle. *)
Theorem getChain_terminates_without_cycle id :
  Acc (parentEdge t) id ->
  exists fuel r,
    getChain fuel t id = Some r
    /\ forall fuel', (fuel <= fuel')%nat -> getChain fuel' t id = Some r.
Proof.
  intros Hacc.
  assert (H : exists fuel r, getChain fuel t id = Some r).
  { unfold getChain. destruct (getToken t id) as [c|] eqn:Hg.
    - destruct (walk_terminates id Hacc c [] Hg) as (fuel & l & Hw).
      exists fuel. rewrite Hw. eauto.
    - exists 0%nat. eauto. }
  destruct H as (fuel & r & H). exists fuel, r. split; [exact H |].
  intros fuel' Hle. eapply getChain_more_fuel; eauto.
Qed.

End ChainWalker.

(** ** Properties of the consent manager *)

Lemma updateState_hit id st t r :
  tokens t !! id = Some r ->
  (updateState id st t).2
  = mkTIBET (<[r := set_state st (objects t !!! r)]> (objects t)) (tokens t)
            (defaultActor t).
Proof.
  intros H. unfold updateState. rewrite H. cbn [snd].
  rewrite (insert_id _ _ _ H). reflexivity.
Qed.

Lemma updateState_miss id st t :
  tokens t !! id = None -> (updateState id st t).2 = t.
Proof. intros H. unfold updateState. rewrite H. reflexivity. Qed.

Lemma respond_effect t g pid tok st r :
  tokenId tok = g -> g <> pid ->
  tokens t !! pid = Some r -> (r < length (objects t))%nat ->
  let t3 := respond t g pid tok st in
  state <$> objects t3 !! r = Some st
  /\ state <$> objects t3 !! length (objects t) = Some st
  /\ tokens t3 = <[g := length (objects t)]> (tokens t)
  /\ length (objects t3) = S (length (objects t))
  /\ (forall r', r' <> r -> (r' < length (objects t))%nat ->
                 objects t3 !! r' = objects t !! r').
Proof.
  intros Hid Hne Hpid Hr. cbv zeta. unfold respond.
  set (n := length (objects t)).
  assert (Hnew : objects (stored t g tok) !!! n = tok).
  { apply list_lookup_total_correct. apply stored_lookup_new. }
  rewrite Hnew, Hid.
  rewrite (updateState_hit g st (stored t g tok) n)
    by (cbn [tokens stored]; apply lookup_insert_eq).
  rewrite Hnew. cbn [objects tokens defaultActor stored].
  rewrite (updateState_hit pid st _ r)
    by (cbn [tokens]; rewrite lookup_insert_ne by exact Hne; exact Hpid).
  cbn [objects tokens defaultActor].
  assert (Hlen : length (objects t ++ [tok]) = S n).
  { rewrite length_app. cbn [length]. lia. }
  split; [| split; [| split; [| split]]].
  - rewrite list_lookup_insert_eq by (rewrite length_insert, Hlen; lia).
    reflexivity.
  - rewrite list_lookup_insert_ne by lia.
    rewrite list_lookup_insert_eq by (rewrite Hlen; lia). reflexivity.
  - reflexivity.
  - rewrite !length_insert. exact Hlen.
  - intros r' Hr' Hlt.
    rewrite list_lookup_insert_ne by congruence.
    rewrite list_lookup_insert_ne by lia.
    apply lookup_app_l. exact Hlt.
Qed.

Section ConsentProperties.

Variable JSON_stringify : TokenData -> string.
Variable crypto_subtle : option (string -> list Z).

Local Abbreviation accept' := (accept JSON_stringify crypto_subtle).
Local Abbreviation reject' := (reject JSON_stringify crypto_subtle).
Local Abbreviation propose' := (propose JSON_stringify crypto_subtle).
Local Abbreviation newToken' := (newToken JSON_stringify crypto_subtle).

Lemma accept_unfold pid who env m :
  accept' pid who env m
  = match proposals m !! pid with
    | None => (JS.Throw (JS.Error ("Proposal not found: " +:+ pid)), m)
    | Some p =>
        let orig := objects (tibet m) !!! token p in
        if recipientMismatch orig who then
          (JS.Throw (JS.Error "Acceptor does not match intended recipient"), m)
        else
          (JS.Return (mkResponse pid true (length (objects (tibet m))) None),
           mkManager
             (respond (tibet m) (gen_id env) pid
                      (newToken' (acceptParams orig pid who env) env (tibet m) None)
                      ACCEPTED)
             (proposals m))
    end.
Proof. reflexivity. Qed.

Lemma reject_unfold pid who why_ env m :
  reject' pid who why_ env m
  = match proposals m !! pid with
    | None => (JS.Throw (JS.Error ("Proposal not found: " +:+ pid)), m)
    | Some p =>
        let orig := objects (tibet m) !!! token p in
        (JS.Return (mkResponse pid false (length (objects (tibet m))) why_),
         mkManager
           (respond (tibet m) (gen_id env) pid
                    (newToken' (rejectParams orig pid who why_ env) env (tibet m) None)
                    REJECTED)
           (proposals m))
    end.
Proof. reflexivity. Qed.




(** C8 (amended). [accept] throws, returning nothing, when the proposal is
    unknown, and throws the authorization error when the proposal's
    [what.to] is truthy (for a string: not empty) and is not [acceptorDid].
    In both cases the manager is exactly as before: no token object was
    added and no state was changed. *)
Theorem accept_failures_change_nothing m pid who env :
  (proposals m !! pid = None ->
   accept' pid who env m
   = (JS.Throw (JS.Error ("Proposal not found: " +:+ pid)), m))
  /\ (forall p,
        proposals m !! pid = Some p ->
        let expectedTo :=
          JS.get_prop (what (provenance (objects (tibet m) !!! token p))) "to" in
        JS.truthy expectedTo = true -> expectedTo <> JS.Str who ->
        accept' pid who env m
        = (JS.Throw (JS.Error "Acceptor does not match intended recipient"), m)).
Proof.
  split.
  - intros Hp. rewrite accept_unfold, Hp. reflexivity.
  - intros p Hp. cbv zeta. intros Htr Hne.
    rewrite accept_unfold, Hp. cbv zeta. unfold recipientMismatch. cbv zeta.
    rewrite Htr. cbn [andb].
    destruct (JS.get_prop _ "to") as [| | | |s| |] eqn:Hto; try reflexivity.
    cbn [JS.strict_ne_str].
    destruct (String.eqb_spec s who) as [->|Hs]; [contradiction | reflexivity].
Qed.

(** *** The alignment invariant *)

Lemma aligned_new actorDid : aligned (new_Manager actorDid).
Proof. intros id p H. cbn in H. rewrite lookup_empty in H. discriminate. Qed.

Lemma aligned_respond m pid p g tok st :
  aligned m -> proposals m !! pid = Some p ->
  tokenId tok = g -> proposals m !! g = None ->
  aligned (mkManager (respond (tibet m) g pid tok st) (proposals m)).
Proof.
  intros Hal Hp Hid Hg.
  assert (Hne : g <> pid) by congruence.
  destruct (Hal _ _ Hp) as [Ht Hlt].
  destruct (respond_effect (tibet m) g pid tok st _ Hid Hne Ht Hlt)
    as (_ & _ & Htok & Hlen & _).
  intros id q Hq. cbn [proposals tibet] in *.
  destruct (Hal _ _ Hq) as [Htq Hltq].
  rewrite Htok, Hlen. split; [| lia].
  rewrite lookup_insert_ne by congruence. exact Htq.
Qed.

Lemma aligned_accept m pid who env :
  aligned m -> proposals m !! gen_id env = None ->
  aligned (accept' pid who env m).2.
Proof.
  intros Hal Hg. rewrite accept_unfold.
  destruct (proposals m !! pid) as [p|] eqn:Hp; [| exact Hal].
  cbv zeta. destruct (recipientMismatch _ who); [exact Hal |].
  eapply aligned_respond; eauto.
Qed.

Lemma aligned_reject m pid who why_ env :
  aligned m -> proposals m !! gen_id env = None ->
  aligned (reject' pid who why_ env m).2.
Proof.
  intros Hal Hg. rewrite reject_unfold.
  destruct (proposals m !! pid) as [p|] eqn:Hp; [| exact Hal].
  cbv zeta. eapply aligned_respond; eauto.
Qed.

Lemma aligned_propose consent env m :
  aligned m -> aligned (propose' consent env m).2.
Proof.
  intros Hal. unfold propose. rewrite createToken_unfold.
  destruct (expiryOf _ (exp_now env)) as [e|x]; [| exact Hal].
  set (tok := newToken _ _ _ _ _ e).
  set (t := tibet m). set (n := length (objects t)).
  assert (Hnew : objects (stored t (gen_id env) tok) !!! n = tok).
  { apply list_lookup_total_correct. apply stored_lookup_new. }
  rewrite Hnew. change (tokenId tok) with (gen_id env).
  rewrite (updateState_hit (gen_id env) PROPOSED (stored t (gen_id env) tok) n)
    by (cbn [tokens stored]; apply lookup_insert_eq).
  rewrite Hnew. cbn [snd objects tokens defaultActor stored].
  assert (Hlen : length (objects t ++ [tok]) = S n).
  { rewrite length_app. cbn [length]. lia. }
  assert (Hid : tokenId (<[n := set_state PROPOSED tok]> (objects t ++ [tok]) !!! n)
                = gen_id env).
  { rewrite (list_lookup_total_correct _ n (set_state PROPOSED tok));
      [reflexivity |].
    apply list_lookup_insert_eq. rewrite Hlen. lia. }
  rewrite Hid.
  intros id q. cbn [proposals tibet objects tokens].
  rewrite length_insert, Hlen.
  destruct (decide (gen_id env = id)) as [<-|Hne].
  - rewrite !lookup_insert_eq. intros [= <-]. cbn [token]. split; [reflexivity | lia].
  - rewrite !lookup_insert_ne by exact Hne. intros Hq.
    destruct (Hal _ _ Hq) as [Htq Hltq]. split; [exact Htq |].
    fold t in Hltq. fold n in Hltq. lia.
Qed.

End ConsentProperties.

(** ** Concrete runs *)

Example ex_toString16 :
  JS.toString16 255 = "ff" /\ JS.toString16 0 = "0" /\ JS.toString16 4096 = "1000".
Proof. repeat split. Qed.

Example ex_to_int32 :
  JS.to_int32 (2 ^ 31) = - 2 ^ 31 /\ JS.to_int32 (2 ^ 32 + 5) = 5
  /\ JS.to_int32 (-1) = -1.
Proof. repeat split. Qed.

Example ex_fallback_signature :
  generateSignature Ref.subtle "abc" = "0000000000017862".
Proof. reflexivity. Qed.

Example ex_round_trip :
  proposalState ex_proposed "p1" = Some PROPOSED
  /\ proposalState ex_accepted "p1" = Some ACCEPTED
  /\ proposalState ex_rejected "p1" = Some REJECTED
  /\ (ex_reject "p1" bob (Some "no thanks") ex_rejectEnv ex_proposed).1
     = JS.Return (mkResponse "p1" false 1 (Some "no thanks"))
  /\ state <$> objects (tibet ex_rejected) !! 1%nat = Some REJECTED.
Proof. vm_compute. repeat split. Qed.

(** In binary64, 0.4 + 0.2 is 0.6000000000000001: the expired token of an
    anonymous actor scores just above 0.6 as well. *)
Example ex_expired_anonymous :
  actor <$> getToken ex_expiredAnonymousStore "t1" = Some "anonymous"
  /\ trustScore (ex_verify ex_expiredAnonymousStore (ById "t1") 1000)
     = 0.6000000000000001%float
  /\ closeToTenths (trustScore (ex_verify ex_expiredAnonymousStore (ById "t1") 1000)) 6
     = true.
Proof. vm_compute. repeat split. Qed.

Example ex_dangling_parent :
  chainIntact
    (details (ex_verify ex_store1
                (ByToken (mkToken "z" audit alice
                            (mkProvenance (JS.Str "x") None None "y") "" CREATED
                            "" (Some "never-created") None None)) 0))
  = false.
Proof. vm_compute. reflexivity. Qed.

(** *** Instances of the theorems *)

(** C1 on the grandchild of the chain of three, verified by identifier. *)
Lemma verify_valid_iff_and_trustScore_witness :
  resolve ex_store3 (ById "t3") = Some ex_tokenC
  /\ (let r := ex_verify ex_store3 (ById "t3") 4000 in
      let sv := signatureValid (details r) in
      let ne := notExpired (details r) in
      let ci := chainIntact (details r) in
      let trusted := negb (String.eqb (actor ex_tokenC) "anonymous") in
      (valid r = true <-> sv = true /\ ne = true /\ ci = true)
      /\ trustScore r = weightedSum sv ne ci trusted
      /\ closeToTenths (trustScore r) (tenths sv ne ci trusted) = true
      /\ actorTrusted (details r) = trusted
      /\ error r = None).
Proof.
  split; [vm_compute; reflexivity |].
  apply (verify_valid_iff_and_trustScore Ref.stringify Ref.subtle
           ex_store3 (ById "t3") 4000 ex_tokenC).
  vm_compute. reflexivity.
Defined.

(** C2 on the child token, verified half a second after its creation. *)
Lemma verify_after_createToken_witness :
  ex_create ex_childParams ex_childEnv ex_store1 = (JS.Return 1%nat, ex_store2)
  /\ (forall pid, p_parentId ex_childParams = Some pid ->
                  JS.truthy_str pid = true -> is_Some (getToken ex_store1 pid))
  /\ (forall d, p_expiresIn ex_childParams = Some d -> 2500 < exp_now ex_childEnv + d)
  /\ exists tok,
       objects ex_store2 !! 1%nat = Some tok
       /\ getToken ex_store2 (gen_id ex_childEnv) = Some tok
       /\ actor tok = JS.or_str (p_actor ex_childParams) (defaultActor ex_store1)
       /\ forall x, x = ById (gen_id ex_childEnv) \/ x = ByToken tok ->
            let res := ex_verify ex_store2 x 2500 in
            valid res = true
            /\ signatureValid (details res) = true
            /\ notExpired (details res) = true
            /\ chainIntact (details res) = true
            /\ (actorTrusted (details res) = false <-> actor tok = "anonymous")
            /\ trustScore res
               = (if actorTrusted (details res) then 0.9999999999999999
                  else 0.8999999999999999)%float.
Proof.
  assert (H1 : ex_create ex_childParams ex_childEnv ex_store1
               = (JS.Return 1%nat, ex_store2)) by (vm_compute; reflexivity).
  assert (H2 : forall pid, p_parentId ex_childParams = Some pid ->
                 JS.truthy_str pid = true -> is_Some (getToken ex_store1 pid)).
  { intros pid [= <-] _. vm_compute. eauto. }
  assert (H3 : forall d, p_expiresIn ex_childParams = Some d ->
                 2500 < exp_now ex_childEnv + d).
  { intros d [= <-]. reflexivity. }
  split; [exact H1 |]. split; [exact H2 |]. split; [exact H3 |].
  exact (verify_after_createToken Ref.stringify Ref.subtle
           ex_childParams ex_childEnv ex_store1 1%nat ex_store2 2500 H1 H2 H3).
Defined.

(** C4 (amended) on the token created with [expiresIn = -1]. *)
Lemma verify_created_expired_witness :
  ex_create (set_expiresIn (Some (-1)) ex_rootParams) ex_expiredEnv ex_store0
  = (JS.Return 0%nat, ex_expiredStore)
  /\ exp_now ex_expiredEnv <= 1000
  /\ (let res := ex_verify ex_expiredStore (ById (gen_id ex_expiredEnv)) 1000 in
      notExpired (details res) = false
      /\ valid res = false
      /\ trustScore res
         = weightedSum (signatureValid (details res)) false
                       (chainIntact (details res)) (actorTrusted (details res))
      /\ (trustScore res <=? 0.7000000000000001)%float = true).
Proof.
  assert (H1 : ex_create (set_expiresIn (Some (-1)) ex_rootParams) ex_expiredEnv
                 ex_store0 = (JS.Return 0%nat, ex_expiredStore))
    by (vm_compute; reflexivity).
  assert (H2 : exp_now ex_expiredEnv <= 1000) by (vm_compute; discriminate).
  split; [exact H1 |]. split; [exact H2 |].
  exact (verify_created_expired Ref.stringify Ref.subtle ex_rootParams
           ex_expiredEnv ex_store0 0%nat ex_expiredStore 1000
           (ById (gen_id ex_expiredEnv)) H1 H2 (or_introl eq_refl)).
Defined.

(** C4, as stated, fails: a signed token of a named actor with no parent,
    created with [expiresIn = -1], scores 0.4 + 0.2 + 0.1, above 0.6. *)
Lemma expired_token_scores_above_0_6 :
  notExpired (details (ex_verify ex_expiredStore (ById "t1") 1000)) = false
  /\ valid (ex_verify ex_expiredStore (ById "t1") 1000) = false
  /\ trustScore (ex_verify ex_expiredStore (ById "t1") 1000)
     = 0.7000000000000001%float
  /\ (trustScore (ex_verify ex_expiredStore (ById "t1") 1000) <=? 0.6)%float
     = false.
Proof. vm_compute. repeat split. Qed.

(** C7 (amended) on the chain t1, t2, t3. *)
Lemma getChain_is_lineage_witness :
  getToken ex_store3 "t1" = Some ex_tokenA
  /\ getToken ex_store3 "t2" = Some ex_tokenB
  /\ getToken ex_store3 "t3" = Some ex_tokenC
  /\ parentId ex_tokenA = None
  /\ parentId ex_tokenB = Some "t1"
  /\ parentId ex_tokenC = Some "t2"
  /\ "t1" <> "" /\ "t2" <> ""
  /\ (forall fuel, (3 <= fuel)%nat ->
        getChain fuel ex_store3 "t3"
        = Some (Some (mkChain 3 [ex_tokenA; ex_tokenB; ex_tokenC]
                              (Some ex_tokenA) (Some ex_tokenC))))
  /\ (forall fuel id ch,
        getChain fuel ex_store3 id = Some (Some ch) ->
        exists tok,
          getToken ex_store3 id = Some tok
          /\ lineage ex_store3 tok (chain_tokens ch)
          /\ chain_length ch = length (chain_tokens ch)
          /\ origin ch = chain_tokens ch !! 0%nat
          /\ current ch = Some tok)
  /\ (forall id tok l,
        getToken ex_store3 id = Some tok -> lineage ex_store3 tok l ->
        getChain (length l) ex_store3 id
        = Some (Some (mkChain (length l) l (l !! 0%nat) (Some tok))))
  /\ (getToken ex_store3 "" = None ->
      forall tok l, specLineage ex_store3 tok l <-> lineage ex_store3 tok l).
Proof.
  assert (HA : getToken ex_store3 "t1" = Some ex_tokenA) by (vm_compute; reflexivity).
  assert (HB : getToken ex_store3 "t2" = Some ex_tokenB) by (vm_compute; reflexivity).
  assert (HC : getToken ex_store3 "t3" = Some ex_tokenC) by (vm_compute; reflexivity).
  assert (HpA : parentId ex_tokenA = None) by (vm_compute; reflexivity).
  assert (HpB : parentId ex_tokenB = Some "t1") by (vm_compute; reflexivity).
  assert (HpC : parentId ex_tokenC = Some "t2") by (vm_compute; reflexivity).
  assert (Ha : "t1" <> "") by discriminate.
  assert (Hb : "t2" <> "") by discriminate.
  repeat (split; [assumption |]).
  exact (getChain_is_lineage ex_store3 "t1" "t2" "t3"
           ex_tokenA ex_tokenB ex_tokenC HA HB HC HpA HpB HpC Ha Hb).
Defined.

(** C7, as stated, fails: with the root A stored under the empty identifier,
    B naming it as parent and C naming B, the loop takes B's [parentId] for
    no parent, and the chain of C is [B; C], of length 2, although the
    lineage in the words of the specification is [A; B; C]. *)
Lemma getChain_stops_at_empty_parentId :
  getToken ex_emptyIdStore "" = Some ex_rootUnderEmpty
  /\ getToken ex_emptyIdStore "b" = Some ex_childOfEmpty
  /\ getToken ex_emptyIdStore "c" = Some ex_grandchildOfEmpty
  /\ parentId ex_rootUnderEmpty = None
  /\ parentId ex_childOfEmpty = Some (tokenId ex_rootUnderEmpty)
  /\ parentId ex_grandchildOfEmpty = Some (tokenId ex_childOfEmpty)
  /\ specLineage ex_emptyIdStore ex_grandchildOfEmpty
       [ex_rootUnderEmpty; ex_childOfEmpty; ex_grandchildOfEmpty]
  /\ (forall fuel, (2 <= fuel)%nat ->
        getChain fuel ex_emptyIdStore "c"
        = Some (Some (mkChain 2 [ex_childOfEmpty; ex_grandchildOfEmpty]
                              (Some ex_childOfEmpty)
                              (Some ex_grandchildOfEmpty)))).
Proof.
  assert (HA : getToken ex_emptyIdStore "" = Some ex_rootUnderEmpty)
    by (vm_compute; reflexivity).
  assert (HB : getToken ex_emptyIdStore "b" = Some ex_childOfEmpty)
    by (vm_compute; reflexivity).
  assert (HC : getToken ex_emptyIdStore "c" = Some ex_grandchildOfEmpty)
    by (vm_compute; reflexivity).
  repeat (split; [first [assumption | reflexivity] |]).
  split.
  - apply (specLineage_parent ex_emptyIdStore ex_grandchildOfEmpty "b"
             ex_childOfEmpty [ex_rootUnderEmpty; ex_childOfEmpty]
             eq_refl HB).
    apply (specLineage_parent ex_emptyIdStore ex_childOfEmpty ""
             ex_rootUnderEmpty [ex_rootUnderEmpty] eq_refl HA).
    apply specLineage_no_parent. reflexivity.
  - intros fuel Hfuel.
    apply (getChain_more_fuel ex_emptyIdStore 2 fuel "c"); [| exact Hfuel].
    vm_compute. reflexivity.
Qed.

Lemma ex_store3_well_founded : Acc (parentEdge ex_store3) "t3".
Proof.
  assert (H1 : Acc (parentEdge ex_store3) "t1").
  { constructor. intros y (c & p & Hg & Hp & _).
    vm_compute in Hg. injection Hg as <-. discriminate Hp. }
  assert (H2 : Acc (parentEdge ex_store3) "t2").
  { constructor. intros y (c & p & Hg & Hp & _).
    vm_compute in Hg. injection Hg as <-. injection Hp as <-. exact H1. }
  constructor. intros y (c & p & Hg & Hp & _).
  vm_compute in Hg. injection Hg as <-. injection Hp as <-. exact H2.
Qed.

(** C5 (amended) on the chain t1, t2, t3. *)
Lemma getChain_terminates_without_cycle_witness :
  Acc (parentEdge ex_store3) "t3"
  /\ exists fuel r,
       getChain fuel ex_store3 "t3" = Some r
       /\ forall fuel', (fuel <= fuel')%nat -> getChain fuel' ex_store3 "t3" = Some r.
Proof.
  split; [exact ex_store3_well_founded |].
  exact (getChain_terminates_without_cycle ex_store3 "t3" ex_store3_well_founded).
Defined.

Lemma ex_loop_walk fuel : forall acc,
  walk fuel ex_loopStore acc (Some ex_loopA) = None
  /\ walk fuel ex_loopStore acc (Some ex_loopB) = None.
Proof.
  induction fuel as [|fuel IH]; intros acc; [split; reflexivity |].
  rewrite !walk_step.
  change (parentOf ex_loopStore ex_loopA) with (Some ex_loopB).
  change (parentOf ex_loopStore ex_loopB) with (Some ex_loopA).
  split; apply IH.
Qed.

(** C5, as stated, fails: on a store whose parent links loop, the walk has
    no cycle guard and never ends, whatever the fuel. *)
Lemma getChain_loops_on_cycle :
  getToken ex_loopStore "a" = Some ex_loopA
  /\ parentOf ex_loopStore ex_loopA = Some ex_loopB
  /\ parentOf ex_loopStore ex_loopB = Some ex_loopA
  /\ (forall fuel, getChain fuel ex_loopStore "a" = None).
Proof.
  split; [reflexivity |]. split; [reflexivity |]. split; [reflexivity |].
  intros fuel. unfold getChain.
  change (getToken ex_loopStore "a") with (Some ex_loopA). cbv beta iota.
  rewrite (proj1 (ex_loop_walk fuel [])). reflexivity.
Qed.




(** C8 (amended): an unknown proposal, and carol accepting what was
    proposed to bob. *)
Lemma accept_failures_change_nothing_witness :
  (proposals ex_proposed !! "unknown" = None
   /\ ex_accept "unknown" bob ex_acceptEnv ex_proposed
      = (JS.Throw (JS.Error "Proposal not found: unknown"), ex_proposed))
  /\ (proposals ex_proposed !! "p1" = Some (mkProposal 0)
      /\ JS.get_prop (what (provenance (objects (tibet ex_proposed) !!! 0%nat))) "to"
         = JS.Str bob
      /\ JS.truthy (JS.Str bob) = true
      /\ JS.Str bob <> JS.Str carol
      /\ ex_accept "p1" carol ex_acceptEnv ex_proposed
         = (JS.Throw (JS.Error "Acceptor does not match intended recipient"),
            ex_proposed)).
Proof.
  assert (H0 : proposals ex_proposed !! "unknown" = None)
    by (vm_compute; reflexivity).
  assert (H1 : proposals ex_proposed !! "p1" = Some (mkProposal 0))
    by (vm_compute; reflexivity).
  assert (H2 : JS.get_prop
                 (what (provenance (objects (tibet ex_proposed) !!! token (mkProposal 0))))
                 "to" = JS.Str bob) by (vm_compute; reflexivity).
  split.
  - split; [exact H0 |].
    exact (proj1 (accept_failures_change_nothing Ref.stringify Ref.subtle
                    ex_proposed "unknown" bob ex_acceptEnv) H0).
  - split; [exact H1 |]. split; [exact H2 |]. split; [reflexivity |].
    split; [discriminate |].
    apply (proj2 (accept_failures_change_nothing Ref.stringify Ref.subtle
                    ex_proposed "p1" carol ex_acceptEnv) (mkProposal 0) H1).
    + rewrite H2. reflexivity.
    + rewrite H2. discriminate.
Defined.

(** C8, as stated, fails: a proposal whose [what.to] is present but empty is
    accepted by anyone; [accept] returns, adds a token and changes the
    state. *)
Lemma accept_empty_recipient_is_not_refused :
  JS.get_prop (what (provenance (objects (tibet ex_proposedToNobody) !!! 0%nat))) "to"
  = JS.Str ""
  /\ JS.strict_ne_str (JS.Str "") bob = true
  /\ proposalState ex_proposedToNobody "p1" = Some PROPOSED
  /\ (ex_accept "p1" bob ex_acceptEnv ex_proposedToNobody).1
     = JS.Return (mkResponse "p1" true 1 None)
  /\ proposalState (ex_accept "p1" bob ex_acceptEnv ex_proposedToNobody).2 "p1"
     = Some ACCEPTED
  /\ length (objects (tibet (ex_accept "p1" bob ex_acceptEnv ex_proposedToNobody).2))
     = 2%nat.
Proof. vm_compute. repeat split. Qed.

(** ** Further properties of the token engine *)

Section EngineProperties.

Variable JSON_stringify : TokenData -> string.
Variable crypto_subtle : option (string -> list Z).

Local Abbreviation verify' := (verify JSON_stringify crypto_subtle).
Local Abbreviation createToken' := (createToken JSON_stringify crypto_subtle).
Local Abbreviation newToken' := (newToken JSON_stringify crypto_subtle).

Lemma wfStore_getToken_None t id :
  wfStore t -> (getToken t id = None <-> tokens t !! id = None).
Proof.
  intros Hwf. unfold getToken. destruct (tokens t !! id) as [r|] eqn:Hr.
  - split; [| discriminate]. intros Hn. apply lookup_ge_None in Hn.
    specialize (Hwf _ _ Hr). lia.
  - tauto.
Qed.

Lemma getToken_stored_absent t g tok id :
  id <> g -> tokens t !! id = None -> getToken (stored t g tok) id = None.
Proof.
  intros Hne Hn. unfold getToken. cbn [tokens stored].
  rewrite lookup_insert_ne by congruence. rewrite Hn. reflexivity.
Qed.

(** X1. [createToken] adds exactly one object and touches no other: the
    objects that were there are unchanged, every other identifier resolves as
    before, and the generated identifier now resolves to the new token, in
    state CREATED, with the actor given or else the default one (an id that
    was in use is overwritten). *)
Theorem createToken_adds_one_token p env t r t' :
  createToken' p env t = (JS.Return r, t') ->
  length (objects t') = S (length (objects t))
  /\ (forall i, (i < length (objects t))%nat -> objects t' !! i = objects t !! i)
  /\ (forall id tok, id <> gen_id env -> getToken t id = Some tok ->
                     getToken t' id = Some tok)
  /\ (forall id, id <> gen_id env -> tokens t !! id = None ->
                 getToken t' id = None)
  /\ defaultActor t' = defaultActor t
  /\ exists tok,
       getToken t' (gen_id env) = Some tok
       /\ objects t' !! r = Some tok
       /\ tokenId tok = gen_id env
       /\ state tok = CREATED
       /\ actor tok = JS.or_str (p_actor p) (defaultActor t)
       /\ type_ tok = p_type p
       /\ provenance tok
          = mkProvenance (p_what p) (p_with p) (p_where p) (p_why p)
       /\ timestamp tok = ts_now env
       /\ parentId tok = p_parentId p
       /\ metadata tok = p_metadata p.
Proof.
  intros Hc.
  destruct (createToken_Return _ _ _ _ _ _ _ Hc) as (e & He & -> & ->).
  split; [unfold stored; cbn [objects]; rewrite length_app; cbn [length]; lia |].
  split; [intros i Hi; unfold stored; cbn [objects]; apply lookup_app_l; exact Hi |].
  split; [intros id tok Hne Hg; apply getToken_stored_old; assumption |].
  split; [intros id Hne Hn; apply getToken_stored_absent; assumption |].
  split; [reflexivity |].
  exists (newToken' p env t e).
  split; [apply getToken_stored_new |]. split; [apply stored_lookup_new |].
  repeat split.
Qed.

(** X2. [createToken] never returns a token when a non-zero [expiresIn]
    leads outside the range of [Date]: it throws. Whenever it throws the
    store is as it was, and whenever it returns the expiry was absent, zero
    or in range, the store has exactly one object more and the result is
    that object. *)
Theorem createToken_fails_without_a_trace p env t :
  (expiryOutOfRange p env = true ->
   exists x, createToken' p env t = (JS.Throw x, t))
  /\ (forall x, (createToken' p env t).1 = JS.Throw x ->
                (createToken' p env t).2 = t)
  /\ (forall r, (createToken' p env t).1 = JS.Return r ->
                expiryOutOfRange p env = false
                /\ r = length (objects t)
                /\ length (objects (createToken' p env t).2)
                   = S (length (objects t))).
Proof.
  rewrite createToken_unfold. unfold expiryOutOfRange, expiryOf, JS.toISOString.
  destruct (p_expiresIn p) as [d|]; simpl.
  - destruct (Z.eqb_spec d 0) as [->|Hd]; simpl.
    + split; [discriminate |]. split; [discriminate |].
      intros r [= <-]. split; [reflexivity |]. split; [reflexivity |].
      rewrite length_app. simpl. lia.
    + destruct (JS.validTime (exp_now env + d)); simpl.
      * split; [discriminate |]. split; [discriminate |].
        intros r [= <-]. split; [reflexivity |]. split; [reflexivity |].
        rewrite length_app. simpl. lia.
      * split; [intros _; eexists; reflexivity |].
        split; [reflexivity | discriminate].
  - split; [discriminate |]. split; [discriminate |].
    intros r [= <-]. split; [reflexivity |]. split; [reflexivity |].
    rewrite length_app. simpl. lia.
Qed.

(** X3. [createToken] does not check [parentId]: a token created with a
    non-empty [parentId] under which nothing is stored is created all the
    same, and then verifies with [chainIntact = false] and [valid = false]
    although its signature is valid. *)
Theorem verify_dangling_parent p env t r t' pid now :
  createToken JSON_stringify crypto_subtle p env t = (JS.Return r, t') ->
  p_parentId p = Some pid -> pid <> "" ->
  tokens t !! pid = None -> pid <> gen_id env ->
  let res := verify JSON_stringify crypto_subtle t' (ById (gen_id env)) now in
  chainIntact (details res) = false
  /\ valid res = false
  /\ signatureValid (details res) = true
  /\ error res = None
  /\ (trustScore res <=? 0.8)%float = true.
Proof.
  intros Hc Hp Hne Hn Hg.
  destruct (createToken_Return _ _ _ _ _ _ _ Hc) as (e & He & -> & ->).
  set (tok := newToken' p env t e).
  cbv zeta.
  rewrite (verify_resolved _ _ _ (ById (gen_id env)) _ tok)
    by apply getToken_stored_new.
  set (s := stored t (gen_id env) tok).
  assert (Hci : chainIntact (details (verify' s (ByToken tok) now)) = false).
  { rewrite verify_chainIntact. subst tok. cbn [parentId newToken]. rewrite Hp.
    assert (Htr : JS.truthy_str pid = true).
    { unfold JS.truthy_str. apply negb_true_iff, String.eqb_neq. exact Hne. }
    rewrite Htr. subst s. rewrite getToken_stored_absent by assumption.
    reflexivity. }
  assert (Hsv : signatureValid (details (verify' s (ByToken tok) now)) = true)
    by apply newToken_signatureValid.
  pose proof (verify_trustScore JSON_stringify crypto_subtle s tok now) as Hts.
  pose proof (verify_valid JSON_stringify crypto_subtle s tok now) as Hv.
  cbv zeta in Hts, Hv. rewrite Hsv, Hci in Hts, Hv.
  split; [exact Hci |]. split; [rewrite Hv; apply andb_false_r |].
  split; [exact Hsv |]. split; [reflexivity |].
  rewrite Hts. destruct (notExpired _), (actorTrusted _); reflexivity.
Qed.

(** X4. Expiry is strict: a token created with a non-zero [expiresIn] is
    [notExpired] exactly at the instants before [Date.now() + expiresIn]; at
    that very instant it is already expired. A token created with no
    [expiresIn], or with zero, is [notExpired] at every instant. *)
Theorem verify_notExpired_after_create p env t r t' now :
  createToken JSON_stringify crypto_subtle p env t = (JS.Return r, t') ->
  notExpired (details (verify JSON_stringify crypto_subtle t' (ById (gen_id env)) now))
  = match p_expiresIn p with
    | Some d => (d =? 0) || (now <? exp_now env + d)
    | None => true
    end.
Proof.
  intros Hc.
  destruct (createToken_Return _ _ _ _ _ _ _ Hc) as (e & He & -> & ->).
  rewrite (verify_resolved _ _ _ (ById (gen_id env)) _ (newToken' p env t e))
    by apply getToken_stored_new.
  rewrite verify_notExpired. cbn [expiresAt newToken].
  destruct (expiryOf_Return _ _ _ He) as [[-> Hf] | (d & Hd & Hd0 & -> & _)].
  - destruct (p_expiresIn p) as [d|]; [| reflexivity].
    simpl in Hf. apply negb_false_iff in Hf. rewrite Hf. reflexivity.
  - rewrite Hd. destruct (Z.eqb_spec d 0); [contradiction | reflexivity].
Qed.

Lemma set_state_idem st tok : set_state st (set_state st tok) = set_state st tok.
Proof. reflexivity. Qed.

(** X5. [updateState] on an identifier that is not in the store returns
    [null] and changes nothing. On a stored identifier it changes the state
    of that token and nothing else: the other fields of the token, the
    tokens under other objects, the number of objects and the keys all stay;
    and doing it twice is the same as doing it once. *)
Theorem updateState_changes_only_the_state id st t :
  (tokens t !! id = None -> updateState id st t = (None, t))
  /\ (forall tok, getToken t id = Some tok ->
        is_Some (updateState id st t).1
        /\ getToken (updateState id st t).2 id = Some (set_state st tok))
  /\ (forall id', tokens t !! id' <> tokens t !! id ->
        getToken (updateState id st t).2 id' = getToken t id')
  /\ length (objects (updateState id st t).2) = length (objects t)
  /\ tokens (updateState id st t).2 = tokens t
  /\ (updateState id st (updateState id st t).2).2 = (updateState id st t).2.
Proof.
  split; [intros Hn; unfold updateState; rewrite Hn; reflexivity |].
  split.
  { intros tok Hg. split.
    - unfold updateState, getToken in *.
      destruct (tokens t !! id); [eauto | discriminate].
    - rewrite getToken_updateState, Hg.
      rewrite decide_True; [reflexivity |].
      split; [reflexivity |]. unfold getToken in Hg.
      destruct (tokens t !! id); [eauto | discriminate]. }
  split.
  { intros id' Hne. rewrite getToken_updateState.
    rewrite decide_False by (intros [He _]; congruence).
    destruct (getToken t id'); reflexivity. }
  destruct (tokens t !! id) as [r|] eqn:Hr.
  - rewrite (updateState_hit _ _ _ _ Hr). cbn [objects tokens].
    split; [apply length_insert |]. split; [reflexivity |].
    rewrite (updateState_hit id st _ r) by exact Hr.
    cbn [objects tokens defaultActor]. rewrite list_insert_insert_eq.
    f_equal. destruct (decide (r < length (objects t))%nat) as [Hlt|Hge].
    + rewrite list_lookup_total_insert_eq by exact Hlt. reflexivity.
    + rewrite !list_insert_ge by lia. reflexivity.
  - rewrite !(updateState_miss _ _ _ Hr). repeat split.
Qed.

Lemma import_cons k v rest t :
  import_ ((k, v) :: rest) t = import_ rest (stored t k v).
Proof. reflexivity. Qed.

Lemma import_lookup_aux entries : forall t id,
  match lastEntry id entries with
  | Some tok => getToken (import_ entries t) id = Some tok
  | None =>
      (forall tok, getToken t id = Some tok ->
                   getToken (import_ entries t) id = Some tok)
      /\ (tokens t !! id = None -> getToken (import_ entries t) id = None)
  end.
Proof.
  induction entries as [|[k v] rest IH]; intros t id.
  - cbn [lastEntry]. split; [auto |].
    intros Hn. unfold import_, getToken. cbn [fold_left]. rewrite Hn. reflexivity.
  - rewrite import_cons. cbn [lastEntry].
    specialize (IH (stored t k v) id).
    destruct (lastEntry id rest) as [x|]; [exact IH |].
    destruct IH as [IHs IHn].
    destruct (String.eqb_spec k id) as [->|Hne].
    + apply IHs. apply getToken_stored_new.
    + split.
      * intros tok Hg. apply IHs. apply getToken_stored_old; [exact Hg | congruence].
      * intros Hn. apply IHn. cbn [tokens stored].
        rewrite lookup_insert_ne by exact Hne. exact Hn.
Qed.

(** X6. [import] overwrites on an identifier collision and validates
    nothing: after it, an identifier that occurs in the entries resolves to
    the token of its last entry, whatever that token is; an identifier that
    does not occur resolves as before. *)
Theorem import_last_entry_wins entries t id :
  (forall tok, lastEntry id entries = Some tok ->
               getToken (import_ entries t) id = Some tok)
  /\ (lastEntry id entries = None ->
      (forall tok, getToken t id = Some tok ->
                   getToken (import_ entries t) id = Some tok)
      /\ (tokens t !! id = None -> getToken (import_ entries t) id = None)).
Proof.
  pose proof (import_lookup_aux entries t id) as H.
  split.
  - intros tok He. rewrite He in H. exact H.
  - intros He. rewrite He in H. exact H.
Qed.

Lemma tokenValues_elem t tok :
  tok ∈ tokenValues t <-> exists id, getToken t id = Some tok.
Proof.
  unfold tokenValues. rewrite list_elem_of_omap. split.
  - intros ([id r] & Hin & Ho). apply elem_of_map_to_list in Hin.
    exists id. unfold getToken. rewrite Hin. exact Ho.
  - intros (id & Hg). unfold getToken in Hg.
    destruct (tokens t !! id) as [r|] eqn:Hr; [| discriminate].
    exists (id, r). split; [apply elem_of_map_to_list; exact Hr | exact Hg].
Qed.

Lemma elem_of_optional_filter {A B} (P : B -> A -> Prop)
  `{!forall v x, Decision (P v x)} (o : option B) (l : list A) (x : A) :
  x ∈ match o with Some v => filter (P v) l | None => l end
  <-> x ∈ l /\ (forall v, o = Some v -> P v x).
Proof.
  destruct o as [v|].
  - rewrite list_elem_of_filter. split.
    + intros [HP Hin]. split; [exact Hin |]. intros v' [= <-]. exact HP.
    + intros [Hin HP]. split; [apply HP; reflexivity | exact Hin].
  - split; [intros Hin; split; [exact Hin | discriminate] | tauto].
Qed.

Lemma elem_of_actor_filter (o : option string) (l : list TIBETToken) tok :
  tok ∈ (if JS.truthy_opt o then filter (fun x => Some (actor x) = o) l else l)
  <-> tok ∈ l /\ (forall a, o = Some a -> a <> "" -> actor tok = a).
Proof.
  destruct o as [a|]; cbn [JS.truthy_opt].
  - unfold JS.truthy_str. destruct (String.eqb_spec a "") as [->|Ha]; cbn [negb].
    + split; [intros Hin; split; [exact Hin |] | tauto].
      intros a [= <-] Hne. contradiction.
    + rewrite list_elem_of_filter. split.
      * intros [[= <-] Hin]. split; [exact Hin |]. intros a' [= <-] _. reflexivity.
      * intros [Hin HP]. split; [| exact Hin]. f_equal. apply HP; [reflexivity | exact Ha].
  - split; [intros Hin; split; [exact Hin | discriminate] | tauto].
Qed.

(** X7. [listTokens(filter)] holds exactly the stored tokens that match
    every filter field that is truthy: [type] and [state] when given,
    [actor] when given and not empty. A filter on the empty actor filters
    nothing. (Stated on membership; the order of the list is not
    modelled.) *)
Theorem listTokens_membership flt t tok :
  tok ∈ listTokens flt t <->
  (exists id, getToken t id = Some tok)
  /\ (forall ty, flt ≫= f_type = Some ty -> type_ tok = ty)
  /\ (forall st, flt ≫= f_state = Some st -> state tok = st)
  /\ (forall a, flt ≫= f_actor = Some a -> a <> "" -> actor tok = a).
Proof.
  unfold listTokens. cbv zeta.
  rewrite elem_of_actor_filter.
  rewrite (elem_of_optional_filter (fun st x => state x = st)).
  rewrite (elem_of_optional_filter (fun ty x => type_ x = ty)).
  rewrite tokenValues_elem. tauto.
Qed.

Lemma lineage_nonempty t c l : lineage t c l -> (1 <= length l)%nat.
Proof.
  destruct 1; cbn [length]; try lia. rewrite length_app. cbn [length]. lia.
Qed.


Lemma wfStore_new actor0 : wfStore (new_TIBET actor0).
Proof. intros id r H. cbn in H. rewrite lookup_empty in H. discriminate. Qed.

Lemma wfStore_stored t g tok : wfStore t -> wfStore (stored t g tok).
Proof.
  intros Hwf id r. unfold stored. cbn [tokens objects].
  rewrite length_app. cbn [length].
  destruct (decide (g = id)) as [->|Hne].
  - rewrite lookup_insert_eq. intros [= <-]. lia.
  - rewrite lookup_insert_ne by exact Hne. intros H. specialize (Hwf _ _ H). lia.
Qed.

Lemma wfStore_createToken p env t : wfStore t -> wfStore (createToken' p env t).2.
Proof.
  intros Hwf. rewrite createToken_unfold.
  destruct (expiryOf _ _); [apply wfStore_stored |]; exact Hwf.
Qed.

Lemma wfStore_updateState id st t : wfStore t -> wfStore (updateState id st t).2.
Proof.
  intros Hwf id' r. unfold updateState.
  destruct (tokens t !! id) as [r0|] eqn:Hr0; cbn [snd tokens objects].
  - rewrite (insert_id _ _ _ Hr0), length_insert. apply Hwf.
  - apply Hwf.
Qed.

Lemma wfStore_import entries : forall t, wfStore t -> wfStore (import_ entries t).
Proof.
  induction entries as [|[k v] rest IH]; intros t Hwf; [exact Hwf |].
  rewrite import_cons. apply IH, wfStore_stored, Hwf.
Qed.

Lemma lineage_stored t g tok c l :
  wfStore t -> tokens t !! g = None ->
  (forall x, x ∈ l -> parentId x <> Some g) ->
  lineage t c l -> lineage (stored t g tok) c l.
Proof.
  intros Hwf Hg Hl Hlin.
  induction Hlin as [c Hf | c pid Hpid Hgp | c pid p l Hpid Htr Hgp Hlin IH].
  - apply lineage_no_parent. exact Hf.
  - eapply lineage_dangling; [exact Hpid |].
    apply getToken_stored_absent.
    + intros ->. apply (Hl c); [apply list_elem_of_here | exact Hpid].
    + apply wfStore_getToken_None; assumption.
  - eapply lineage_parent; [exact Hpid | exact Htr | |].
    + apply getToken_stored_old; [exact Hgp |].
      intros ->. unfold getToken in Hgp. rewrite Hg in Hgp. discriminate.
    + apply IH. intros x Hx. apply Hl. apply elem_of_app. left. exact Hx.
Qed.

(** X9. Creating a token under a new identifier with a stored parent
    extends the parent's chain by one: [getChain] of the new identifier is
    the parent's chain followed by the new token, with the same origin. *)
Theorem createToken_extends_chain p env t r t' pid fuel chP :
  wfStore t ->
  createToken' p env t = (JS.Return r, t') ->
  tokens t !! gen_id env = None ->
  p_parentId p = Some pid -> pid <> "" ->
  getChain fuel t pid = Some (Some chP) ->
  (forall x, x ∈ chain_tokens chP -> parentId x <> Some (gen_id env)) ->
  exists tok,
    getToken t' (gen_id env) = Some tok
    /\ getChain (S (chain_length chP)) t' (gen_id env)
       = Some (Some (mkChain (S (chain_length chP)) (chain_tokens chP ++ [tok])
                             (origin chP) (Some tok))).
Proof.
  intros Hwf Hc Hfresh Hp Hne Hch Hnot.
  destruct (createToken_Return _ _ _ _ _ _ _ Hc) as (e & He & -> & ->).
  set (tok := newToken' p env t e). exists tok.
  split; [apply getToken_stored_new |].
  unfold getChain in Hch.
  destruct (getToken t pid) as [P|] eqn:HgP; [| discriminate].
  destruct (walk fuel t [] (Some P)) as [l|] eqn:Hw; [| discriminate].
  injection Hch as <-. cbn [chain_tokens chain_length origin] in *.
  destruct (walk_lineage _ _ _ _ _ Hw) as (l0 & Hl0 & ->).
  rewrite app_nil_r in *.
  assert (Htr : JS.truthy_str pid = true).
  { unfold JS.truthy_str. apply negb_true_iff, String.eqb_neq. exact Hne. }
  assert (HgP' : getToken (stored t (gen_id env) tok) pid = Some P).
  { apply getToken_stored_old; [exact HgP |].
    intros ->. unfold getToken in HgP. rewrite Hfresh in HgP. discriminate. }
  assert (Hlin : lineage (stored t (gen_id env) tok) tok (l0 ++ [tok])).
  { eapply lineage_parent; [exact Hp | exact Htr | exact HgP' |].
    apply lineage_stored; assumption. }
  pose proof (getChain_of_lineage _ (gen_id env) tok _
                (getToken_stored_new t (gen_id env) tok) Hlin) as H.
  rewrite length_app in H. cbn [length] in H. rewrite Nat.add_1_r in H.
  rewrite H. pose proof (lineage_nonempty _ _ _ Hl0) as Hlen.
  rewrite (lookup_app_l l0 [tok] 0) by lia. reflexivity.
Qed.

End EngineProperties.

(** ** Digests and identifiers *)

Lemma append_cons c (a b : string) : String c a +:+ b = String c (a +:+ b).
Proof. reflexivity. Qed.

Lemma append_empty_r (a : string) : a +:+ "" = a.
Proof. induction a as [|c a IH]; [reflexivity |]. rewrite append_cons. congruence. Qed.

Lemma length_append (a b : string) :
  String.length (a +:+ b) = (String.length a + String.length b)%nat.
Proof.
  induction a as [|c a IH]; [reflexivity |].
  rewrite append_cons. simpl. congruence.
Qed.

Lemma append_assoc (a b c : string) : (a +:+ b) +:+ c = a +:+ (b +:+ c).
Proof.
  induction a as [|x a IH]; [reflexivity |]. rewrite !append_cons. congruence.
Qed.

Lemma allChars_append f (a b : string) :
  DID.allChars f (a +:+ b) = DID.allChars f a && DID.allChars f b.
Proof.
  induction a as [|c a IH]; [reflexivity |].
  rewrite append_cons. simpl. rewrite IH. apply andb_assoc.
Qed.

Lemma repeat_char_add n m c :
  JS.repeat_char (n + m) c = JS.repeat_char n c +:+ JS.repeat_char m c.
Proof.
  induction n as [|n IH]; [reflexivity |].
  simpl. rewrite append_cons. congruence.
Qed.

Lemma length_repeat_char n c : String.length (JS.repeat_char n c) = n.
Proof. induction n as [|n IH]; [reflexivity | simpl; congruence]. Qed.

Lemma allChars_repeat_char f n c :
  f c = true -> DID.allChars f (JS.repeat_char n c) = true.
Proof.
  intros Hc. induction n as [|n IH]; [reflexivity |].
  simpl. rewrite Hc, IH. reflexivity.
Qed.

Lemma hexDigit_hex d : 0 <= d < 16 -> isHexChar (JS.hexDigit d) = true.
Proof.
  intros Hd.
  assert (H : d = 0 \/ d = 1 \/ d = 2 \/ d = 3 \/ d = 4 \/ d = 5 \/ d = 6
              \/ d = 7 \/ d = 8 \/ d = 9 \/ d = 10 \/ d = 11 \/ d = 12
              \/ d = 13 \/ d = 14 \/ d = 15) by lia.
  repeat (destruct H as [-> | H]; [reflexivity |]). subst d. reflexivity.
Qed.

(** The digits [hexLoop] puts in front of its accumulator: at most [k + 1]
    for a number below [16 ^ (k + 1)]. *)
Lemma hexLoop_digits fuel : forall k n acc,
  0 <= n < 16 ^ Z.of_nat (S k) ->
  exists ds,
    JS.hexLoop fuel n acc = ds +:+ acc
    /\ (String.length ds <= S k)%nat
    /\ DID.allChars isHexChar ds = true.
Proof.
  induction fuel as [|fuel IH]; intros k n acc Hn.
  - exists "". repeat split. cbn. lia.
  - cbn [JS.hexLoop].
    assert (Hd : isHexChar (JS.hexDigit (n mod 16)) = true).
    { apply hexDigit_hex. apply Z.mod_pos_bound. lia. }
    destruct (Z.eqb_spec (n / 16) 0) as [Hz|Hnz].
    + exists (String (JS.hexDigit (n mod 16)) "").
      split; [reflexivity |]. split; [cbn; lia |].
      change (isHexChar (JS.hexDigit (n mod 16)) && true = true).
      rewrite Hd. reflexivity.
    + destruct k as [|k].
      { exfalso. apply Hnz. apply Z.div_small. cbn in Hn. lia. }
      assert (Hq : 0 <= n / 16 < 16 ^ Z.of_nat (S k)).
      { split; [apply Z.div_pos; lia |].
        apply Z.div_lt_upper_bound; [lia |].
        replace (Z.of_nat (S (S k))) with (Z.succ (Z.of_nat (S k))) in Hn by lia.
        rewrite Z.pow_succ_r in Hn by lia. lia. }
      destruct (IH k (n / 16) (String (JS.hexDigit (n mod 16)) acc) Hq)
        as (ds & Hds & Hlen & Hall).
      exists (ds +:+ String (JS.hexDigit (n mod 16)) "").
      split; [rewrite Hds, append_assoc; reflexivity |].
      split; [rewrite length_append; cbn; lia |].
      rewrite allChars_append, Hall.
      change (true && (isHexChar (JS.hexDigit (n mod 16)) && true) = true).
      rewrite Hd. reflexivity.
Qed.

Lemma to_int32_range z : - 2 ^ 31 <= JS.to_int32 z < 2 ^ 31.
Proof.
  unfold JS.to_int32.
  pose proof (Z.mod_pos_bound (z + 2 ^ 31) (2 ^ 32) ltac:(lia)). lia.
Qed.

Lemma fallbackHash_range data : - 2 ^ 31 <= fallbackHash data < 2 ^ 31.
Proof.
  unfold fallbackHash.
  assert (H : forall l a, - 2 ^ 31 <= a < 2 ^ 31 ->
              - 2 ^ 31 <= fold_left
                            (fun (hash : Z) (c : ascii) =>
                               JS.to_int32 (JS.to_int32 (hash * 32) - hash
                                            + JS.charCode c)) l a < 2 ^ 31).
  { induction l as [|c l IH]; intros a Ha; [exact Ha |].
    cbn [fold_left]. apply IH. apply to_int32_range. }
  apply H. lia.
Qed.

(** X10. Without [crypto.subtle] a signature is always sixteen hexadecimal
    characters of which the first eight are zeros: the fallback hash is a
    32-bit number. *)
Theorem fallback_signature_format data :
  exists tail,
    generateSignature None data = "00000000" +:+ tail
    /\ String.length tail = 8%nat
    /\ DID.allChars isHexChar tail = true.
Proof.
  unfold generateSignature, JS.toString16.
  set (n := Z.abs (fallbackHash data)).
  assert (Hn : 0 <= n < 16 ^ Z.of_nat 8).
  { pose proof (fallbackHash_range data). subst n. change (16 ^ Z.of_nat 8) with (2 ^ 32). lia. }
  destruct (hexLoop_digits (S (Z.to_nat (Z.log2 n))) 7 n "" Hn)
    as (ds & Hds & Hlen & Hall).
  rewrite Hds. unfold JS.padStart.
  rewrite append_empty_r.
  replace (16 - String.length ds)%nat with (8 + (8 - String.length ds))%nat by lia.
  rewrite repeat_char_add, append_assoc.
  exists (JS.repeat_char (8 - String.length ds) "0" +:+ ds).
  split; [reflexivity |].
  split; [rewrite length_append, length_repeat_char; lia |].
  rewrite allChars_append, Hall, allChars_repeat_char; reflexivity.
Qed.

Lemma toString16_digit v :
  0 <= v < 16 -> JS.toString16 v = String (JS.hexDigit v) "".
Proof.
  intros Hv. unfold JS.toString16. cbn [JS.hexLoop].
  rewrite (Z.mod_small v 16) by lia. rewrite (Z.div_small v 16) by lia.
  reflexivity.
Qed.

Lemma variant_range r : 0 <= r < 16 -> 8 <= Z.lor (Z.land r 3) 8 < 12.
Proof.
  intros Hr.
  assert (H : r = 0 \/ r = 1 \/ r = 2 \/ r = 3 \/ r = 4 \/ r = 5 \/ r = 6
              \/ r = 7 \/ r = 8 \/ r = 9 \/ r = 10 \/ r = 11 \/ r = 12
              \/ r = 13 \/ r = 14 \/ r = 15) by lia.
  clear Hr.
  repeat (destruct H as [H | H];
          [subst r; compute; split; [discriminate | reflexivity] |]).
  subst r. compute. split; [discriminate | reflexivity].
Qed.

Lemma fillTemplate_filled rand :
  (forall i, 0 <= rand i < 16) ->
  forall tpl i, fillTemplate tpl i rand = filledTemplate tpl i rand.
Proof.
  intros Hr. induction tpl as [|c rest IH]; intros i; [reflexivity |].
  cbn [fillTemplate filledTemplate].
  destruct (Ascii.eqb c "x").
  - rewrite toString16_digit by apply Hr. rewrite IH. reflexivity.
  - destruct (Ascii.eqb c "y").
    + rewrite toString16_digit
        by (pose proof (variant_range (rand i) (Hr i)); lia).
      rewrite IH. reflexivity.
    + rewrite IH. reflexivity.
Qed.

(** X11. Without [crypto.randomUUID], [generateId] yields a string of 36
    characters in the shape of a version-4 UUID: hyphens at the four fixed
    places, the digit 4 for the version, one of 8, 9, a, b for the variant
    and hexadecimal digits elsewhere. In particular an identifier is never
    the empty string. *)
Theorem generateId_fallback_is_uuid_v4 rand :
  (forall i, 0 <= rand i < 16) ->
  let id := generateId None rand in
  String.length id = 36%nat
  /\ JS.truthy_str id = true
  /\ get 8 id = Some "-"%char /\ get 13 id = Some "-"%char
  /\ get 18 id = Some "-"%char /\ get 23 id = Some "-"%char
  /\ get 14 id = Some "4"%char
  /\ (exists v, get 19 id = Some v
                /\ (v = "8" \/ v = "9" \/ v = "a" \/ v = "b")%char)
  /\ (forall n c, get n id = Some c ->
                  n <> 8%nat -> n <> 13%nat -> n <> 18%nat -> n <> 23%nat ->
                  isHexChar c = true).
Proof.
  intros Hr. cbv zeta. unfold generateId.
  rewrite (fillTemplate_filled rand Hr).
  split; [reflexivity |]. split; [reflexivity |].
  split; [reflexivity |]. split; [reflexivity |].
  split; [reflexivity |]. split; [reflexivity |].
  split; [reflexivity |]. split.
  - exists (JS.hexDigit (Z.lor (Z.land (rand 15%nat) 3) 8)).
    split; [reflexivity |].
    pose proof (variant_range _ (Hr 15%nat)) as Hv.
    assert (H : Z.lor (Z.land (rand 15%nat) 3) 8 = 8
                \/ Z.lor (Z.land (rand 15%nat) 3) 8 = 9
                \/ Z.lor (Z.land (rand 15%nat) 3) 8 = 10
                \/ Z.lor (Z.land (rand 15%nat) 3) 8 = 11) by lia.
    destruct H as [-> | [-> | [-> | ->]]]; auto.
  - intros n c Hget H8 H13 H18 H23.
    assert (Hv : isHexChar (JS.hexDigit (Z.lor (Z.land (rand 15%nat) 3) 8)) = true).
    { apply hexDigit_hex. pose proof (variant_range _ (Hr 15%nat)). lia. }
    do 36 (destruct n as [|n];
           [ first [ contradiction
                   | injection Hget as <-;
                     first [ reflexivity | exact Hv | apply hexDigit_hex, Hr ] ]
           | ]).
    discriminate Hget.
Qed.

(** ** Further properties of the consent manager *)

Lemma respond_responded t g pid tok st r :
  tokenId tok = g -> g <> pid ->
  tokens t !! pid = Some r -> (r < length (objects t))%nat ->
  respond t g pid tok st = responded t g r tok st.
Proof.
  intros Hid Hne Hpid Hr. unfold respond, responded.
  set (n := length (objects t)).
  assert (Hnew : objects (stored t g tok) !!! n = tok).
  { apply list_lookup_total_correct. apply stored_lookup_new. }
  rewrite Hnew, Hid.
  rewrite (updateState_hit g st (stored t g tok) n)
    by (cbn [tokens stored]; apply lookup_insert_eq).
  rewrite Hnew. cbn [objects tokens defaultActor stored].
  rewrite (updateState_hit pid st _ r)
    by (cbn [tokens]; rewrite lookup_insert_ne by exact Hne; exact Hpid).
  cbn [objects tokens defaultActor].
  assert (H2 : <[n := set_state st tok]> (objects t ++ [tok])
               = objects t ++ [set_state st tok]).
  { rewrite insert_app_r_alt by (subst n; lia).
    subst n. rewrite Nat.sub_diag. reflexivity. }
  rewrite H2. rewrite lookup_total_app_l by exact Hr.
  rewrite insert_app_l by exact Hr. reflexivity.
Qed.

Lemma getToken_responded_new t g r tok st :
  (r < length (objects t))%nat ->
  getToken (responded t g r tok st) g = Some (set_state st tok).
Proof.
  intros Hr. unfold getToken, responded. cbn [tokens objects].
  rewrite lookup_insert_eq. rewrite lookup_app_r by (rewrite length_insert; lia).
  rewrite length_insert, Nat.sub_diag. reflexivity.
Qed.

Lemma getToken_responded_proposal t g pid r tok st :
  g <> pid -> tokens t !! pid = Some r -> (r < length (objects t))%nat ->
  getToken (responded t g r tok st) pid = Some (set_state st (objects t !!! r)).
Proof.
  intros Hne Hpid Hr. unfold getToken, responded. cbn [tokens objects].
  rewrite lookup_insert_ne by exact Hne. rewrite Hpid.
  rewrite lookup_app_l by (rewrite length_insert; exact Hr).
  apply list_lookup_insert_eq. exact Hr.
Qed.

Section ConsentFurther.

Variable JSON_stringify : TokenData -> string.
Variable crypto_subtle : option (string -> list Z).

Local Abbreviation accept' := (accept JSON_stringify crypto_subtle).
Local Abbreviation reject' := (reject JSON_stringify crypto_subtle).
Local Abbreviation propose' := (propose JSON_stringify crypto_subtle).
Local Abbreviation newToken' := (newToken JSON_stringify crypto_subtle).
Local Abbreviation verify' := (verify JSON_stringify crypto_subtle).

Lemma propose_unfold consent env m :
  propose' consent env m
  = match expiryOf (c_expiresIn consent) (exp_now env) with
    | JS.Throw x => (JS.Throw x, m)
    | JS.Return e =>
        (JS.Return (mkProposal (length (objects (tibet m)))),
         mkManager
           (stored (tibet m) (gen_id env)
                   (set_state PROPOSED
                      (newToken' (proposeParams consent env) env (tibet m) e)))
           (<[gen_id env := mkProposal (length (objects (tibet m)))]>
              (proposals m)))
    end.
Proof.
  unfold propose. rewrite createToken_unfold.
  change (p_expiresIn _) with (c_expiresIn consent).
  destruct (expiryOf (c_expiresIn consent) (exp_now env)) as [e|x];
    [| destruct m; reflexivity].
  fold (proposeParams consent env).
  set (tok := newToken' (proposeParams consent env) env (tibet m) e).
  set (t := tibet m). set (n := length (objects t)).
  assert (Hnew : objects (stored t (gen_id env) tok) !!! n = tok).
  { apply list_lookup_total_correct. apply stored_lookup_new. }
  rewrite Hnew. change (tokenId tok) with (gen_id env).
  rewrite (updateState_hit (gen_id env) PROPOSED (stored t (gen_id env) tok) n)
    by (cbn [tokens stored]; apply lookup_insert_eq).
  rewrite Hnew. cbn [snd objects tokens defaultActor stored].
  assert (H2 : <[n := set_state PROPOSED tok]> (objects t ++ [tok])
               = objects t ++ [set_state PROPOSED tok]).
  { rewrite insert_app_r_alt by (subst n; lia).
    subst n. rewrite Nat.sub_diag. reflexivity. }
  rewrite H2.
  assert (Hid : tokenId ((objects t ++ [set_state PROPOSED tok]) !!! n)
                = gen_id env).
  { rewrite (list_lookup_total_correct _ n (set_state PROPOSED tok));
      [reflexivity |].
    rewrite lookup_app_r by (subst n; lia).
    subst n. rewrite Nat.sub_diag. reflexivity. }
  rewrite Hid. reflexivity.
Qed.

(** X12. When [propose] throws, the manager is as it was: no token and no
    proposal was added. When it returns a proposal, the new token is stored
    under the generated identifier in state PROPOSED, names the proposer as
    actor, carries action, proposer and recipient as its content and both
    parties as linked, has no parent, and is registered as a proposal under
    its identifier; the other proposals stay registered as they were. *)
Theorem propose_registers_a_proposed_token consent env m :
  (forall x, (propose' consent env m).1 = JS.Throw x ->
             (propose' consent env m).2 = m)
  /\ (forall pr, (propose' consent env m).1 = JS.Return pr ->
        let m' := (propose' consent env m).2 in
        proposals m' !! gen_id env = Some pr
        /\ proposalState m' (gen_id env) = Some PROPOSED
        /\ (forall id, id <> gen_id env ->
                       proposals m' !! id = proposals m !! id)
        /\ exists tok,
             getToken (tibet m') (gen_id env) = Some tok
             /\ objects (tibet m') !! token pr = Some tok
             /\ state tok = PROPOSED
             /\ actor tok = JS.or_str (Some (c_from consent))
                                      (defaultActor (tibet m))
             /\ what (provenance tok)
                = JS.Obj [("action", JS.Str (c_action consent));
                          ("from", JS.Str (c_from consent));
                          ("to", JS.Str (c_to consent))]
             /\ with_ (provenance tok) = Some [c_from consent; c_to consent]
             /\ why (provenance tok) = c_purpose consent
             /\ parentId tok = None).
Proof.
  rewrite propose_unfold. unfold expiryOf, JS.toISOString.
  destruct (JS.truthy_num (c_expiresIn consent)).
  - destruct (JS.validTime _).
    + split; [intros x [=] |]. intros pr [= <-]. cbv zeta. cbn [snd].
      split; [cbn [proposals]; apply lookup_insert_eq |].
      split; [unfold proposalState; cbn [proposals tibet token];
              rewrite lookup_insert_eq; cbn [token];
              rewrite stored_lookup_new; reflexivity |].
      split; [intros id Hne; cbn [proposals]; apply lookup_insert_ne; congruence |].
      eexists. split; [cbn [tibet]; apply getToken_stored_new |].
      split; [cbn [tibet token]; apply stored_lookup_new |].
      repeat split.
    + split; [| intros pr [=]]. intros x _. reflexivity.
  - split; [intros x [=] |]. intros pr [= <-]. cbv zeta. cbn [snd].
    split; [cbn [proposals]; apply lookup_insert_eq |].
    split; [unfold proposalState; cbn [proposals tibet token];
            rewrite lookup_insert_eq; cbn [token];
            rewrite stored_lookup_new; reflexivity |].
    split; [intros id Hne; cbn [proposals]; apply lookup_insert_ne; congruence |].
    eexists. split; [cbn [tibet]; apply getToken_stored_new |].
    split; [cbn [tibet token]; apply stored_lookup_new |].
    repeat split.
Qed.

Lemma propose_Return consent env m pr m1 :
  propose' consent env m = (JS.Return pr, m1) ->
  exists e,
    pr = mkProposal (length (objects (tibet m)))
    /\ m1 = proposedManager m (gen_id env)
              (set_state PROPOSED
                 (newToken' (proposeParams consent env) env (tibet m) e)).
Proof.
  rewrite propose_unfold.
  destruct (expiryOf _ _) as [e|x]; [| discriminate].
  intros [= <- <-]. exists e. split; reflexivity.
Qed.

(** What a response with [tok] does to a manager that has just proposed. *)
Lemma response_facts m g1 ptok g2 tok st :
  g2 <> g1 -> tokenId tok = g2 ->
  let m1 := proposedManager m g1 ptok in
  let t2 := respond (tibet m1) g2 g1 tok st in
  proposalState (mkManager t2 (proposals m1)) g1 = Some st
  /\ getToken t2 g2 = Some (set_state st tok)
  /\ objects t2 !! length (objects (tibet m1)) = Some (set_state st tok)
  /\ getToken t2 g1 = Some (set_state st ptok).
Proof.
  intros Hne Hid. cbv zeta.
  set (n := length (objects (tibet m))).
  assert (Hlen : length (objects (tibet (proposedManager m g1 ptok))) = S n).
  { cbn [proposedManager tibet stored objects]. rewrite length_app. cbn [length].
    subst n. lia. }
  assert (Hpid : tokens (tibet (proposedManager m g1 ptok)) !! g1 = Some n).
  { cbn [proposedManager tibet stored tokens]. apply lookup_insert_eq. }
  assert (Hr : (n < length (objects (tibet (proposedManager m g1 ptok))))%nat)
    by (rewrite Hlen; lia).
  assert (Hobj : objects (tibet (proposedManager m g1 ptok)) !!! n = ptok).
  { apply list_lookup_total_correct.
    cbn [proposedManager tibet]. apply stored_lookup_new. }
  rewrite (respond_responded _ g2 g1 tok st n Hid Hne Hpid Hr).
  pose proof (getToken_responded_proposal _ g2 g1 n tok st Hne Hpid Hr) as Hgp.
  rewrite Hobj in Hgp.
  assert (Hlook : forall t id r x,
             getToken t id = Some x -> tokens t !! id = Some r ->
             objects t !! r = Some x).
  { intros t id r x Hg Ht. unfold getToken in Hg. rewrite Ht in Hg. exact Hg. }
  assert (Ht1 : tokens (responded (tibet (proposedManager m g1 ptok)) g2 n tok st)
                !! g1 = Some n).
  { cbn [responded tokens]. rewrite lookup_insert_ne by exact Hne. exact Hpid. }
  assert (Ht2 : tokens (responded (tibet (proposedManager m g1 ptok)) g2 n tok st)
                !! g2
                = Some (length (objects (tibet (proposedManager m g1 ptok))))).
  { cbn [responded tokens]. apply lookup_insert_eq. }
  pose proof (getToken_responded_new _ g2 n tok st Hr) as Hgn.
  split.
  { unfold proposalState. cbn [proposals proposedManager].
    rewrite lookup_insert_eq. cbn [token tibet]. fold n.
    change (stored (tibet m) g1 ptok) with (tibet (proposedManager m g1 ptok)).
    rewrite (Hlook _ _ _ _ Hgp Ht1). reflexivity. }
  split; [exact Hgn |].
  split; [exact (Hlook _ _ _ _ Hgn Ht2) | exact Hgp].
Qed.

Lemma recipientMismatch_proposed consent env t e who :
  recipientMismatch
    (set_state PROPOSED (newToken' (proposeParams consent env) env t e)) who
  = JS.truthy_str (c_to consent) && negb (String.eqb (c_to consent) who).
Proof. reflexivity. Qed.

(** X13. After [propose], [accept] lets through exactly the recipient named
    in the proposal, or anyone when that recipient is the empty string:
    everyone else gets the authorization error and nothing changes. A
    successful [accept] answers [accepted: true], moves the proposal to
    ACCEPTED and stores a response token in state ACCEPTED whose parent is
    the proposal, whose actor is the acceptor and whose reason is the
    original reason after the word Accepted. *)
Theorem propose_then_accept consent env1 m pr m1 who env2 :
  propose' consent env1 m = (JS.Return pr, m1) ->
  gen_id env2 <> gen_id env1 ->
  (c_to consent <> "" -> who <> c_to consent ->
   accept' (gen_id env1) who env2 m1
   = (JS.Throw (JS.Error "Acceptor does not match intended recipient"), m1))
  /\ (c_to consent = "" \/ who = c_to consent ->
      exists resp m2 atok,
        accept' (gen_id env1) who env2 m1 = (JS.Return resp, m2)
        /\ accepted resp = true
        /\ proposalId resp = gen_id env1
        /\ reason resp = None
        /\ proposalState m2 (gen_id env1) = Some ACCEPTED
        /\ proposals m2 = proposals m1
        /\ getToken (tibet m2) (gen_id env2) = Some atok
        /\ objects (tibet m2) !! r_token resp = Some atok
        /\ state atok = ACCEPTED
        /\ parentId atok = Some (gen_id env1)
        /\ actor atok = JS.or_str (Some who) (defaultActor (tibet m))
        /\ why (provenance atok) = "Accepted: " +:+ c_purpose consent
        /\ what (provenance atok)
           = JS.Obj [("action", JS.Str "consent_accepted");
                     ("originalAction", JS.Str (c_action consent))]
        /\ with_ (provenance atok) = Some [c_from consent; c_to consent]).
Proof.
  intros Hp Hne.
  destruct (propose_Return _ _ _ _ _ Hp) as (e & -> & ->).
  set (ptok := set_state PROPOSED
                 (newToken' (proposeParams consent env1) env1 (tibet m) e)).
  assert (Hprop : proposals (proposedManager m (gen_id env1) ptok) !! gen_id env1
                  = Some (mkProposal (length (objects (tibet m)))))
    by (cbn [proposedManager proposals]; apply lookup_insert_eq).
  assert (Hobj : objects (tibet (proposedManager m (gen_id env1) ptok))
                 !!! token (mkProposal (length (objects (tibet m)))) = ptok).
  { apply list_lookup_total_correct. cbn [proposedManager tibet token].
    apply stored_lookup_new. }
  rewrite (accept_unfold JSON_stringify crypto_subtle), Hprop. cbv zeta.
  rewrite Hobj. subst ptok. rewrite recipientMismatch_proposed.
  set (ptok := set_state PROPOSED
                 (newToken' (proposeParams consent env1) env1 (tibet m) e)).
  split.
  - intros Hto Hwho.
    assert (Ht : JS.truthy_str (c_to consent) = true).
    { unfold JS.truthy_str. apply negb_true_iff, String.eqb_neq. exact Hto. }
    assert (Hw : String.eqb (c_to consent) who = false).
    { apply String.eqb_neq. congruence. }
    rewrite Ht, Hw. reflexivity.
  - intros Hok.
    assert (Hf : JS.truthy_str (c_to consent)
                 && negb (String.eqb (c_to consent) who) = false).
    { destruct Hok as [-> | ->]; [reflexivity |].
      rewrite String.eqb_refl. apply andb_false_r. }
    rewrite Hf.
    set (atok := newToken' (acceptParams ptok (gen_id env1) who env2) env2
                   (tibet (proposedManager m (gen_id env1) ptok)) None).
    destruct (response_facts m (gen_id env1) ptok (gen_id env2) atok ACCEPTED
                Hne eq_refl) as (Hst & Hgn & Hon & _).
    eexists _, _, (set_state ACCEPTED atok).
    split; [reflexivity |].
    cbn [accepted proposalId reason r_token tibet proposals].
    repeat (split; [first [reflexivity | exact Hst | exact Hgn | exact Hon] |]).
    reflexivity.
Qed.

(** X14. After [propose], [reject] succeeds for every caller: there is no
    recipient check. It answers [accepted: false] with the reason as it was
    passed, moves the proposal to REJECTED and stores a response token in
    state REJECTED whose parent is the proposal; the reason on the token is
    the one passed, or the original reason after the word Rejected when none
    or the empty string was passed. *)
Theorem propose_then_reject consent env1 m pr m1 who why_ env2 :
  propose' consent env1 m = (JS.Return pr, m1) ->
  gen_id env2 <> gen_id env1 ->
  exists resp m2 rtok,
    reject' (gen_id env1) who why_ env2 m1 = (JS.Return resp, m2)
    /\ accepted resp = false
    /\ proposalId resp = gen_id env1
    /\ reason resp = why_
    /\ proposalState m2 (gen_id env1) = Some REJECTED
    /\ proposals m2 = proposals m1
    /\ getToken (tibet m2) (gen_id env2) = Some rtok
    /\ objects (tibet m2) !! r_token resp = Some rtok
    /\ state rtok = REJECTED
    /\ parentId rtok = Some (gen_id env1)
    /\ actor rtok = JS.or_str (Some who) (defaultActor (tibet m))
    /\ why (provenance rtok)
       = (if JS.truthy_opt why_ then default "" why_
          else "Rejected: " +:+ c_purpose consent)
    /\ what (provenance rtok)
       = JS.Obj [("action", JS.Str "consent_rejected");
                 ("originalAction", JS.Str (c_action consent))].
Proof.
  intros Hp Hne.
  destruct (propose_Return _ _ _ _ _ Hp) as (e & -> & ->).
  set (ptok := set_state PROPOSED
                 (newToken' (proposeParams consent env1) env1 (tibet m) e)).
  assert (Hprop : proposals (proposedManager m (gen_id env1) ptok) !! gen_id env1
                  = Some (mkProposal (length (objects (tibet m)))))
    by (cbn [proposedManager proposals]; apply lookup_insert_eq).
  assert (Hobj : objects (tibet (proposedManager m (gen_id env1) ptok))
                 !!! token (mkProposal (length (objects (tibet m)))) = ptok).
  { apply list_lookup_total_correct. cbn [proposedManager tibet token].
    apply stored_lookup_new. }
  rewrite (reject_unfold JSON_stringify crypto_subtle), Hprop. cbv zeta.
  rewrite Hobj.
  set (rtok := newToken' (rejectParams ptok (gen_id env1) who why_ env2) env2
                 (tibet (proposedManager m (gen_id env1) ptok)) None).
  destruct (response_facts m (gen_id env1) ptok (gen_id env2) rtok REJECTED
              Hne eq_refl) as (Hst & Hgn & Hon & _).
  eexists _, _, (set_state REJECTED rtok).
  split; [reflexivity |].
  cbn [accepted proposalId reason r_token tibet proposals].
  repeat (split; [first [reflexivity | exact Hst | exact Hgn | exact Hon] |]).
  split; [| reflexivity].
  cbn. destruct why_ as [w|]; [| reflexivity].
  cbn. destruct (JS.truthy_str w); reflexivity.
Qed.

(** The chain of a response [tok] to a proposal that was just made. *)
Lemma response_chain m g1 ptok g2 tok st fuel :
  g2 <> g1 -> tokenId tok = g2 -> g1 <> "" ->
  parentId ptok = None -> parentId tok = Some g1 -> (2 <= fuel)%nat ->
  let t2 := respond (tibet (proposedManager m g1 ptok)) g2 g1 tok st in
  getChain fuel t2 g2
  = Some (Some (mkChain 2 [set_state st ptok; set_state st tok]
                        (Some (set_state st ptok)) (Some (set_state st tok))))
  /\ getChain fuel t2 g1
     = Some (Some (mkChain 1 [set_state st ptok]
                           (Some (set_state st ptok)) (Some (set_state st ptok)))).
Proof.
  intros Hne Hid Hg1 Hpp Hpt Hfuel. cbv zeta.
  destruct (response_facts m g1 ptok g2 tok st Hne Hid) as (_ & Hgn & _ & Hgp).
  set (t2 := respond (tibet (proposedManager m g1 ptok)) g2 g1 tok st) in *.
  assert (Hl1 : lineage t2 (set_state st ptok) [set_state st ptok]).
  { apply lineage_no_parent. cbn [parentId set_state]. rewrite Hpp. reflexivity. }
  assert (Hl2 : lineage t2 (set_state st tok)
                  ([set_state st ptok] ++ [set_state st tok])).
  { eapply lineage_parent; [exact Hpt | | exact Hgp | exact Hl1].
    unfold JS.truthy_str. apply negb_true_iff, String.eqb_neq. exact Hg1. }
  split.
  - eapply getChain_more_fuel; [| exact Hfuel].
    exact (getChain_of_lineage t2 g2 _ _ Hgn Hl2).
  - eapply getChain_more_fuel; [| exact (Nat.le_trans _ _ _ (Nat.le_succ_diag_r 1) Hfuel)].
    exact (getChain_of_lineage t2 g1 _ _ Hgp Hl1).
Qed.

(** X15. After a proposal was accepted or rejected, the consent chain of the
    response token has length 2: the proposal token, then the response
    token, both in the final state; the chain of the proposal itself is the
    proposal token alone. *)
Theorem consent_chain_after_response consent env1 m pr m1 who why_ env2 resp m2 fuel :
  propose' consent env1 m = (JS.Return pr, m1) ->
  gen_id env2 <> gen_id env1 -> gen_id env1 <> "" -> (2 <= fuel)%nat ->
  accept' (gen_id env1) who env2 m1 = (JS.Return resp, m2)
  \/ reject' (gen_id env1) who why_ env2 m1 = (JS.Return resp, m2) ->
  exists ptok rtok,
    getToken (tibet m2) (gen_id env1) = Some ptok
    /\ getToken (tibet m2) (gen_id env2) = Some rtok
    /\ state ptok = state rtok
    /\ state rtok = (if accepted resp then ACCEPTED else REJECTED)
    /\ getConsentChain fuel m2 (gen_id env2)
       = Some (Some (mkChain 2 [ptok; rtok] (Some ptok) (Some rtok)))
    /\ getConsentChain fuel m2 (gen_id env1)
       = Some (Some (mkChain 1 [ptok] (Some ptok) (Some ptok))).
Proof.
  intros Hp Hne Hg1 Hfuel Hresp.
  destruct (propose_Return _ _ _ _ _ Hp) as (e & -> & ->).
  set (ptok := set_state PROPOSED
                 (newToken' (proposeParams consent env1) env1 (tibet m) e)) in *.
  assert (Hprop : proposals (proposedManager m (gen_id env1) ptok) !! gen_id env1
                  = Some (mkProposal (length (objects (tibet m)))))
    by (cbn [proposedManager proposals]; apply lookup_insert_eq).
  assert (Hobj : objects (tibet (proposedManager m (gen_id env1) ptok))
                 !!! token (mkProposal (length (objects (tibet m)))) = ptok).
  { apply list_lookup_total_correct. cbn [proposedManager tibet token].
    apply stored_lookup_new. }
  unfold getConsentChain.
  destruct Hresp as [Ha | Hr].
  - rewrite (accept_unfold JSON_stringify crypto_subtle), Hprop in Ha.
    cbv zeta in Ha. rewrite Hobj in Ha.
    destruct (recipientMismatch ptok who); [discriminate |].
    injection Ha as <- <-. cbn [tibet accepted].
    set (atok := newToken' (acceptParams ptok (gen_id env1) who env2) env2
                   (tibet (proposedManager m (gen_id env1) ptok)) None).
    destruct (response_facts m (gen_id env1) ptok (gen_id env2) atok ACCEPTED
                Hne eq_refl) as (_ & Hgn & _ & Hgp).
    destruct (response_chain m (gen_id env1) ptok (gen_id env2) atok ACCEPTED
                fuel Hne eq_refl Hg1 eq_refl eq_refl Hfuel) as (Hc2 & Hc1).
    exists (set_state ACCEPTED ptok), (set_state ACCEPTED atok).
    repeat split; assumption.
  - rewrite (reject_unfold JSON_stringify crypto_subtle), Hprop in Hr.
    cbv zeta in Hr. rewrite Hobj in Hr.
    injection Hr as <- <-. cbn [tibet accepted].
    set (rtok := newToken' (rejectParams ptok (gen_id env1) who why_ env2) env2
                   (tibet (proposedManager m (gen_id env1) ptok)) None).
    destruct (response_facts m (gen_id env1) ptok (gen_id env2) rtok REJECTED
                Hne eq_refl) as (_ & Hgn & _ & Hgp).
    destruct (response_chain m (gen_id env1) ptok (gen_id env2) rtok REJECTED
                fuel Hne eq_refl Hg1 eq_refl eq_refl Hfuel) as (Hc2 & Hc1).
    exists (set_state REJECTED ptok), (set_state REJECTED rtok).
    repeat split; assumption.
Qed.

Lemma listProposals_elem st m p :
  p ∈ listProposals st m <->
  (exists id, proposals m !! id = Some p)
  /\ (forall s, st = Some s -> state (objects (tibet m) !!! token p) = s).
Proof.
  unfold listProposals. cbv zeta.
  rewrite (elem_of_optional_filter
             (fun s p => state (objects (tibet m) !!! token p) = s)).
  rewrite list_elem_of_fmap. split.
  - intros [([id q] & -> & Hin) Hs]. apply elem_of_map_to_list in Hin.
    split; [exists id; exact Hin | exact Hs].
  - intros [(id & Hid) Hs]. split; [| exact Hs].
    exists (id, p). split; [reflexivity | apply elem_of_map_to_list; exact Hid].
Qed.

(** X16. A registered proposal is in [listProposals()] and, among the
    filtered lists, in the one of the state its token has now and in no
    other: once accepted it is no longer listed as PROPOSED. (Stated on
    membership; the order of the list is not modelled.) *)
Theorem listProposals_follows_the_state m id p s :
  proposals m !! id = Some p ->
  proposalState m id = Some s ->
  p ∈ listProposals None m
  /\ (forall s', p ∈ listProposals (Some s') m <-> s' = s).
Proof.
  intros Hp Hs. unfold proposalState in Hs. rewrite Hp in Hs.
  destruct (objects (tibet m) !! token p) as [tok|] eqn:Ho; [| discriminate].
  injection Hs as Hs.
  assert (Hst : state (objects (tibet m) !!! token p) = s).
  { rewrite (list_lookup_total_correct _ _ _ Ho). exact Hs. }
  split.
  - apply listProposals_elem. split; [eauto | discriminate].
  - intros s'. rewrite listProposals_elem. split.
    + intros [_ H]. rewrite <- Hst. symmetry. apply H. reflexivity.
    + intros ->. split; [eauto |]. intros s0 [= <-]. exact Hst.
Qed.

(** X17. The closures of [createBilateralConsent] act on the manager it
    made, for the recipient of the consent: [accept()] can never fail the
    recipient check and does not look at its argument, [reject(reason)]
    passes its reason on; the manager's default actor is the proposer, or
    the anonymous sentinel when the proposer is the empty string. *)
Theorem createBilateralConsent_closures consent env q m1 env2 :
  createBilateralConsent JSON_stringify crypto_subtle consent env
  = (JS.Return q, m1) ->
  gen_id env2 <> gen_id env ->
  defaultActor (tibet m1) = JS.or_str (Some (c_from consent)) "anonymous"
  /\ proposalState m1 (gen_id env) = Some PROPOSED
  /\ (forall why_, exists resp m2,
        q_accept q why_ env2 m1 = (JS.Return resp, m2)
        /\ accepted resp = true
        /\ proposalState m2 (gen_id env) = Some ACCEPTED)
  /\ (forall w1 w2, q_accept q w1 env2 m1 = q_accept q w2 env2 m1)
  /\ (forall why_, exists resp m2,
        q_reject q why_ env2 m1 = (JS.Return resp, m2)
        /\ accepted resp = false
        /\ reason resp = why_
        /\ proposalState m2 (gen_id env) = Some REJECTED).
Proof.
  intros Hc Hne. unfold createBilateralConsent in Hc.
  destruct (propose' consent env (new_Manager (Some (c_from consent))))
    as [[pr|x] m'] eqn:Hp; [| discriminate].
  injection Hc as <- <-. cbn [q_accept q_reject].
  destruct (propose_Return _ _ _ _ _ Hp) as (e & -> & ->).
  set (m := new_Manager (Some (c_from consent))) in *.
  set (ptok := set_state PROPOSED
                 (newToken' (proposeParams consent env) env (tibet m) e)).
  assert (Hprop : proposals (proposedManager m (gen_id env) ptok) !! gen_id env
                  = Some (mkProposal (length (objects (tibet m)))))
    by (cbn [proposedManager proposals]; apply lookup_insert_eq).
  assert (Hobj : objects (tibet (proposedManager m (gen_id env) ptok))
                 !!! token (mkProposal (length (objects (tibet m)))) = ptok).
  { apply list_lookup_total_correct. cbn [proposedManager tibet token].
    apply stored_lookup_new. }
  rewrite Hobj. change (tokenId ptok) with (gen_id env).
  split; [reflexivity |].
  split.
  { unfold proposalState. rewrite Hprop. cbn [token proposedManager tibet].
    rewrite stored_lookup_new. reflexivity. }
  split; [| split; [reflexivity |]].
  - intros _. rewrite (accept_unfold JSON_stringify crypto_subtle), Hprop.
    cbv zeta. rewrite Hobj. subst ptok. rewrite recipientMismatch_proposed.
    rewrite String.eqb_refl, andb_false_r.
    set (ptok := set_state PROPOSED
                   (newToken' (proposeParams consent env) env (tibet m) e)).
    set (atok := newToken' (acceptParams ptok (gen_id env) (c_to consent) env2)
                   env2 (tibet (proposedManager m (gen_id env) ptok)) None).
    destruct (response_facts m (gen_id env) ptok (gen_id env2) atok ACCEPTED
                Hne eq_refl) as (Hst & _).
    eexists _, _. split; [reflexivity |]. split; [reflexivity | exact Hst].
  - intros why_. rewrite (reject_unfold JSON_stringify crypto_subtle), Hprop.
    cbv zeta. rewrite Hobj.
    set (rtok := newToken' (rejectParams ptok (gen_id env) (c_to consent) why_ env2)
                   env2 (tibet (proposedManager m (gen_id env) ptok)) None).
    destruct (response_facts m (gen_id env) ptok (gen_id env2) rtok REJECTED
                Hne eq_refl) as (Hst & _).
    eexists _, _. split; [reflexivity |]. split; [reflexivity |].
    split; [reflexivity | exact Hst].
Qed.

(** X18. The proposal index stays aligned with the store: a new manager is
    aligned, [propose] keeps it so, and so do [accept] and [reject] as long
    as [generateId] does not return the identifier of a registered proposal;
    and [accept] and [reject] never add or remove a proposal. *)
Theorem manager_stays_aligned actorDid m consent pid who why_ env :
  aligned (new_Manager actorDid)
  /\ (aligned m -> aligned (propose' consent env m).2)
  /\ (aligned m -> proposals m !! gen_id env = None ->
      aligned (accept' pid who env m).2
      /\ aligned (reject' pid who why_ env m).2)
  /\ proposals (accept' pid who env m).2 = proposals m
  /\ proposals (reject' pid who why_ env m).2 = proposals m.
Proof.
  split; [apply aligned_new |].
  split; [apply aligned_propose |].
  split.
  { intros Hal Hg. split; [apply aligned_accept | apply aligned_reject]; assumption. }
  split.
  - rewrite (accept_unfold JSON_stringify crypto_subtle).
    destruct (proposals m !! pid); [| reflexivity].
    cbv zeta. destruct (recipientMismatch _ who); reflexivity.
  - rewrite (reject_unfold JSON_stringify crypto_subtle).
    destruct (proposals m !! pid); reflexivity.
Qed.

End ConsentFurther.

(** ** Identifiers of the did:jis method *)

Lemma stripPrefix_Some p s r :
  DID.stripPrefix p s = Some r <-> s = p +:+ r.
Proof.
  revert s. induction p as [|a p IH]; intros s.
  - change ("" +:+ r) with r. split; [intros [= ->] | intros ->]; reflexivity.
  - rewrite append_cons. destruct s as [|b s].
    + split; discriminate.
    + change (DID.stripPrefix (String a p) (String b s))
        with (if Ascii.eqb a b then DID.stripPrefix p s else None).
      destruct (Ascii.eqb_spec a b) as [-> | Hab].
      * rewrite IH. split; [intros -> | intros [= ->]]; reflexivity.
      * split; [discriminate | intros [= -> _]; contradiction].
Qed.

Lemma spanLower_spec s :
  s = (DID.spanLower s).1 +:+ (DID.spanLower s).2
  /\ DID.allChars DID.isLower (DID.spanLower s).1 = true
  /\ match (DID.spanLower s).2 with
     | String c _ => DID.isLower c = false
     | EmptyString => True
     end.
Proof.
  induction s as [|c s (IH1 & IH2 & IH3)].
  - repeat split.
  - change (DID.spanLower (String c s))
      with (if DID.isLower c
            then let (run, after) := DID.spanLower s in (String c run, after)
            else (EmptyString, String c s)).
    destruct (DID.isLower c) eqn:Hc.
    + destruct (DID.spanLower s) as [run after]. cbn [fst snd] in *.
      rewrite append_cons, <- IH1.
      repeat split; [| exact IH3].
      change (DID.isLower c && DID.allChars DID.isLower run = true).
      rewrite Hc, IH2. reflexivity.
    + cbn [fst snd]. repeat split. exact Hc.
Qed.

Lemma spanLower_append m rest :
  DID.allChars DID.isLower m = true ->
  match rest with
  | String c _ => DID.isLower c = false
  | EmptyString => True
  end ->
  DID.spanLower (m +:+ rest) = (m, rest).
Proof.
  intros Hm Hrest. induction m as [|c m IH].
  - change ("" +:+ rest) with rest. destruct rest as [|c rest]; [reflexivity |].
    change (DID.spanLower (String c rest))
      with (if DID.isLower c
            then let (run, after) := DID.spanLower rest in (String c run, after)
            else (EmptyString, String c rest)).
    rewrite Hrest. reflexivity.
  - change (DID.isLower c && DID.allChars DID.isLower m = true) in Hm.
    apply andb_true_iff in Hm as [Hc Hm].
    rewrite append_cons.
    change (DID.spanLower (String c (m +:+ rest)))
      with (if DID.isLower c
            then let (run, after) := DID.spanLower (m +:+ rest) in (String c run, after)
            else (EmptyString, String c (m +:+ rest))).
    rewrite Hc, (IH Hm). reflexivity.
Qed.

Lemma nonEmpty_true s : DID.nonEmpty s = true <-> s <> "".
Proof.
  destruct s as [|c s]; cbn [DID.nonEmpty]; split; intros H.
  - discriminate.
  - contradiction.
  - discriminate.
  - reflexivity.
Qed.

(** X19. [parseDID] returns a method and an id exactly for the strings
    [did:<method>:<id>] whose method is a non-empty run of lower-case
    letters and whose id is non-empty and free of line terminators; so what
    it returns, joined again, is the string it was given. *)
Theorem parseDID_characterisation did m id :
  DID.parseDID did = Some (DID.mkParsed m id)
  <-> did = "did:" +:+ m +:+ ":" +:+ id
      /\ m <> "" /\ DID.allChars DID.isLower m = true
      /\ id <> ""
      /\ DID.allChars (fun x => negb (DID.isLineTerminator x)) id = true.
Proof.
  unfold DID.parseDID. split.
  - destruct (DID.stripPrefix "did:" did) as [rest|] eqn:Hs; [| discriminate].
    apply stripPrefix_Some in Hs. subst did.
    destruct (spanLower_spec rest) as (Hrest & Hrun & _).
    destruct (DID.spanLower rest) as [run after]. cbn [fst snd] in *.
    destruct after as [|c i]; [discriminate |].
    destruct (DID.nonEmpty run) eqn:Hne; [| discriminate].
    destruct (Ascii.eqb_spec c ":") as [-> | _]; [| discriminate].
    destruct (DID.nonEmpty i) eqn:Hni; [| discriminate].
    destruct (DID.allChars _ i) eqn:Hall; [| discriminate].
    intros [= <- <-]. rewrite Hrest.
    repeat split; try assumption; apply nonEmpty_true; assumption.
  - intros (-> & Hm & Hlow & Hid & Hall).
    assert (Hs : DID.stripPrefix "did:" ("did:" +:+ m +:+ ":" +:+ id)
                 = Some (m +:+ ":" +:+ id)) by (apply stripPrefix_Some; reflexivity).
    rewrite Hs.
    rewrite (spanLower_append m (":" +:+ id) Hlow) by reflexivity.
    change (":" +:+ id) with (String ":" id). cbv beta iota.
    apply nonEmpty_true in Hm, Hid. rewrite Hm, Hid, Hall. reflexivity.
Qed.

Lemma isIdChar_not_terminator c :
  DID.isIdChar c = true -> DID.isLineTerminator c = false.
Proof.
  destruct c as [[] [] [] [] [] [] [] []]; vm_compute; congruence.
Qed.

Lemma allChars_impl (f g : ascii -> bool) s :
  (forall c, f c = true -> g c = true) ->
  DID.allChars f s = true -> DID.allChars g s = true.
Proof.
  intros Hfg. induction s as [|c s IH]; [reflexivity |].
  change (f c && DID.allChars f s = true -> g c && DID.allChars g s = true).
  rewrite !andb_true_iff. intros [Hc Hs]. split; [apply Hfg, Hc | apply IH, Hs].
Qed.

Lemma parseDID_jis x :
  DID.parseDID ("did:jis:" +:+ x)
  = if DID.nonEmpty x && DID.allChars (fun c => negb (DID.isLineTerminator c)) x
    then Some (DID.mkParsed "jis" x) else None.
Proof. reflexivity. Qed.

Lemma testId_parses x :
  DID.testId x = true ->
  DID.parseDID ("did:jis:" +:+ x) = Some (DID.mkParsed "jis" x).
Proof.
  intros Ht. rewrite parseDID_jis. unfold DID.testId in Ht.
  apply andb_true_iff in Ht as [-> Hall].
  rewrite (allChars_impl DID.isIdChar _ x); [reflexivity | | exact Hall].
  intros c Hc. rewrite (isIdChar_not_terminator c Hc). reflexivity.
Qed.

Lemma isValidDID_jis x : DID.isValidDID ("did:jis:" +:+ x) = DID.testId x.
Proof.
  unfold DID.isValidDID.
  assert (Hs : DID.stripPrefix "did:jis:" ("did:jis:" +:+ x) = Some x)
    by (apply stripPrefix_Some; reflexivity).
  rewrite Hs. destruct (DID.testId x) eqn:Ht.
  - rewrite (testId_parses x Ht). exact Ht.
  - rewrite parseDID_jis.
    destruct (DID.nonEmpty x && DID.allChars _ x); [exact Ht | reflexivity].
Qed.

Lemma isValidDID_inv did :
  DID.isValidDID did = true ->
  exists id, did = "did:jis:" +:+ id /\ DID.testId id = true.
Proof.
  intros Hv. destruct (DID.stripPrefix "did:jis:" did) as [x|] eqn:Hs.
  - apply stripPrefix_Some in Hs. subst did. exists x. split; [reflexivity |].
    rewrite <- isValidDID_jis. exact Hv.
  - unfold DID.isValidDID in Hv. rewrite Hs in Hv. discriminate.
Qed.

(** X20. [isValidDID] accepts exactly the strings [did:jis:<id>] whose id
    is non-empty and made of letters, digits, colon, dot, underscore and
    hyphen; each of them parses to method [jis] and that id. *)
Theorem isValidDID_characterisation did :
  DID.isValidDID did = true
  <-> exists id, did = "did:jis:" +:+ id
                 /\ id <> ""
                 /\ DID.allChars DID.isIdChar id = true
                 /\ DID.parseDID did = Some (DID.mkParsed "jis" id).
Proof.
  split.
  - intros Hv. destruct (isValidDID_inv did Hv) as (id & -> & Ht).
    exists id. pose proof (testId_parses id Ht) as Hp.
    unfold DID.testId in Ht. apply andb_true_iff in Ht as [Hne Hall].
    apply nonEmpty_true in Hne. repeat split; assumption.
  - intros (id & -> & Hne & Hall & _). rewrite isValidDID_jis.
    unfold DID.testId. apply nonEmpty_true in Hne. rewrite Hne, Hall. reflexivity.
Qed.

(** X21. [createDID] throws on no parts and on a joined id that is empty
    or has a character outside the id class; otherwise it returns
    [did:jis:] followed by the parts joined with colons, which [isValidDID]
    accepts and [parseDID] takes apart into [jis] and the joined id. *)
Theorem createDID_result parts :
  match DID.createDID parts with
  | JS.Return did =>
      parts <> []
      /\ did = "did:jis:" +:+ DID.joinColon parts
      /\ DID.isValidDID did = true
      /\ DID.parseDID did = Some (DID.mkParsed "jis" (DID.joinColon parts))
  | JS.Throw x =>
      (parts = [] /\ x = JS.Error "DID must have at least one identifier part")
      \/ (parts <> [] /\ DID.testId (DID.joinColon parts) = false
          /\ x = JS.Error "DID contains invalid characters")
  end.
Proof.
  destruct parts as [|p rest]; [left; split; reflexivity |].
  unfold DID.createDID. cbv zeta.
  destruct (DID.testId (DID.joinColon (p :: rest))) eqn:Ht; cbn [negb].
  - split; [discriminate |]. split; [reflexivity |].
    split; [rewrite isValidDID_jis; exact Ht | apply testId_parses, Ht].
  - right. split; [discriminate |]. split; reflexivity.
Qed.

(** X22. Every identifier [isValidDID] accepts is one [createDID] makes:
    called with the id as its single part it returns the identifier. *)
Theorem valid_did_is_created did :
  DID.isValidDID did = true ->
  exists id, DID.parseDID did = Some (DID.mkParsed "jis" id)
             /\ DID.createDID [id] = JS.Return did.
Proof.
  intros Hv. destruct (isValidDID_inv did Hv) as (id & -> & Ht).
  exists id. split; [apply testId_parses, Ht |].
  unfold DID.createDID. cbv zeta. cbn [DID.joinColon]. rewrite Ht. reflexivity.
Qed.

(** ** The resolver and the document builder *)

Lemma validRegistry_new : validRegistry DID.newResolver.
Proof.
  intros did doc H. cbn [DID.newResolver DID.documents] in H.
  rewrite lookup_empty in H. discriminate.
Qed.

Lemma exists_resolve did r :
  DID.exists_ did r = true <-> DID.resolve did r <> None.
Proof.
  unfold DID.exists_, DID.resolve. rewrite bool_decide_eq_true.
  destruct (DID.documents r !! did) as [d|]; split; intros H.
  - discriminate.
  - exists d. reflexivity.
  - destruct H as [? H]. discriminate.
  - contradiction.
Qed.

(** X23. [register] stores a document under its id when the id is valid,
    so that [resolve] returns it and [exists] holds, every other entry
    staying as it was; on an invalid id it throws and the registry is
    unchanged. *)
Theorem register_then_resolve doc r :
  (DID.isValidDID (DID.doc_id doc) = true ->
   (DID.register doc r).1 = JS.Return tt
   /\ DID.resolve (DID.doc_id doc) (DID.register doc r).2 = Some doc
   /\ DID.exists_ (DID.doc_id doc) (DID.register doc r).2 = true
   /\ forall did, did <> DID.doc_id doc ->
        DID.resolve did (DID.register doc r).2 = DID.resolve did r
        /\ DID.exists_ did (DID.register doc r).2 = DID.exists_ did r)
  /\ (DID.isValidDID (DID.doc_id doc) = false ->
      DID.register doc r
      = (JS.Throw (JS.Error ("Invalid DID: " +:+ DID.doc_id doc)), r)).
Proof.
  unfold DID.register. split; intros Hv; rewrite Hv; cbn [negb fst snd];
    [| reflexivity].
  unfold DID.resolve, DID.exists_. cbn [DID.documents].
  rewrite lookup_insert_eq.
  split; [reflexivity |]. split; [reflexivity |].
  split; [apply bool_decide_eq_true; eexists; reflexivity |].
  intros did Hne. rewrite lookup_insert_ne by congruence. split; reflexivity.
Qed.

Lemma validRegistry_register doc r :
  validRegistry r -> validRegistry (DID.register doc r).2.
Proof.
  intros Hr. unfold DID.register.
  destruct (DID.isValidDID (DID.doc_id doc)) eqn:Hv; cbn [negb snd];
    [| exact Hr].
  intros k d. cbn [DID.documents].
  destruct (decide (k = DID.doc_id doc)) as [-> | Hne].
  - rewrite lookup_insert_eq. intros [= <-]. split; [exact Hv | reflexivity].
  - rewrite lookup_insert_ne by congruence. apply Hr.
Qed.

(** X24. A registry that was only ever filled through [register] holds
    nothing under an invalid identifier, and every document it resolves
    carries the identifier it was asked for; [register] and [deactivate]
    keep it so. *)
Theorem registry_holds_valid_ids r doc did :
  validRegistry r ->
  validRegistry (DID.register doc r).2
  /\ validRegistry (DID.deactivate did r).2
  /\ (DID.isValidDID did = false ->
      DID.resolve did r = None /\ DID.exists_ did r = false)
  /\ (forall d, DID.resolve did r = Some d -> DID.doc_id d = did).
Proof.
  intros Hr. split; [| split; [| split]].
  - apply validRegistry_register, Hr.
  - intros k d. cbn [DID.deactivate snd DID.documents].
    intros H. apply lookup_delete_Some in H as [_ H]. exact (Hr k d H).
  - intros Hv.
    assert (Hn : DID.resolve did r = None).
    { unfold DID.resolve. destruct (DID.documents r !! did) as [d|] eqn:Hd;
        [| reflexivity].
      destruct (Hr did d Hd) as [Hv' _]. congruence. }
    split; [exact Hn |].
    destruct (DID.exists_ did r) eqn:He; [| reflexivity].
    apply exists_resolve in He. contradiction.
  - intros d Hd. exact (proj2 (Hr did d Hd)).
Qed.

(** X25. [deactivate] answers whether the identifier was registered;
    afterwards it resolves to null, [exists] is false and a second
    [deactivate] answers false, while every other entry is as before. *)
Theorem deactivate_removes did r :
  (DID.deactivate did r).1 = DID.exists_ did r
  /\ DID.resolve did (DID.deactivate did r).2 = None
  /\ DID.exists_ did (DID.deactivate did r).2 = false
  /\ (DID.deactivate did (DID.deactivate did r).2).1 = false
  /\ forall other, other <> did ->
       DID.resolve other (DID.deactivate did r).2 = DID.resolve other r
       /\ DID.exists_ other (DID.deactivate did r).2 = DID.exists_ other r.
Proof.
  unfold DID.deactivate, DID.exists_, DID.resolve. cbn [fst snd DID.documents].
  rewrite lookup_delete_eq.
  assert (Hf : bool_decide (is_Some (@None DID.DIDDocument)) = false).
  { apply bool_decide_eq_false. intros [? H]. discriminate. }
  repeat split; try exact Hf; rewrite lookup_delete_ne by congruence; reflexivity.
Qed.

Lemma runStep_doc_id s d : DID.doc_id (runStep s d) = DID.doc_id d.
Proof. destruct s; reflexivity. Qed.

Lemma runStep_context s d : DID.context (runStep s d) = DID.context d.
Proof. destruct s; reflexivity. Qed.

Lemma runSteps_doc_id steps d : DID.doc_id (runSteps steps d) = DID.doc_id d.
Proof.
  unfold runSteps. revert d. induction steps as [|s steps IH]; intros d;
    [reflexivity |].
  cbn [fold_left]. rewrite IH. apply runStep_doc_id.
Qed.

Lemma runSteps_context steps d : DID.context (runSteps steps d) = DID.context d.
Proof.
  unfold runSteps. revert d. induction steps as [|s steps IH]; intros d;
    [reflexivity |].
  cbn [fold_left]. rewrite IH. apply runStep_context.
Qed.

Lemma runSteps_snoc steps s d :
  runSteps (steps ++ [s]) d = runStep s (runSteps steps d).
Proof. unfold runSteps. rewrite fold_left_app. reflexivity. Qed.

(** X26. The constructor of the builder throws exactly on an identifier
    [isValidDID] refuses. Otherwise, whatever calls are chained, the built
    document keeps the identifier and the three contexts, [register] takes
    it without throwing, and [addConsentService] and [addTibetService]
    append, after the services already there, a service whose id is the
    identifier followed by the fragment. *)
Theorem builder_keeps_the_identifier did :
  match DID.newBuilder did with
  | JS.Throw x =>
      DID.isValidDID did = false /\ x = JS.Error ("Invalid DID: " +:+ did)
  | JS.Return d0 =>
      DID.isValidDID did = true
      /\ forall steps,
           let doc := DID.build (runSteps steps d0) in
           DID.doc_id doc = did
           /\ DID.context doc = ["https://www.w3.org/ns/did/v1";
                                 "https://w3id.org/security/suites/jws-2020/v1";
                                 "https://humotica.com/ns/jis/v1"]
           /\ (forall r, (DID.register doc r).1 = JS.Return tt
                         /\ DID.resolve did (DID.register doc r).2 = Some doc)
           /\ (forall endpoint,
                 DID.service (runSteps (steps ++ [AddConsentService endpoint]) d0)
                 = Some (DID.orEmpty (DID.service doc)
                         ++ [DID.mkService (did +:+ "#bilateral-consent")
                               "BilateralConsentService" (JS.Str endpoint)]))
           /\ (forall endpoint,
                 DID.service (runSteps (steps ++ [AddTibetService endpoint]) d0)
                 = Some (DID.orEmpty (DID.service doc)
                         ++ [DID.mkService (did +:+ "#tibet-provenance")
                               "TIBETProvenanceService" (JS.Str endpoint)]))
  end.
Proof.
  unfold DID.newBuilder. destruct (DID.isValidDID did) eqn:Hv; cbn [negb];
    [| split; reflexivity].
  split; [reflexivity |]. intros steps. cbv zeta. unfold DID.build.
  set (d0 := DID.mkDocument _ did None _ _ _ _).
  assert (Hid : DID.doc_id (runSteps steps d0) = did)
    by (rewrite runSteps_doc_id; reflexivity).
  split; [exact Hid |].
  split; [rewrite runSteps_context; reflexivity |].
  split.
  { intros r. unfold DID.register, DID.resolve. rewrite Hid, Hv. cbn [negb fst snd].
    cbn [DID.documents]. rewrite lookup_insert_eq. split; reflexivity. }
  split; intros endpoint; rewrite runSteps_snoc; cbn [runStep];
    [unfold DID.addConsentService | unfold DID.addTibetService];
    cbn [DID.addService DID.service]; rewrite Hid; reflexivity.
Qed.

(** ** Instances of the further properties *)

(** X1 on the creation of the grandchild [t3]. *)
Lemma createToken_adds_one_token_witness :
  ex_create ex_grandchildParams ex_grandchildEnv ex_store2
  = (JS.Return 2%nat, ex_store3)
  /\ length (objects ex_store3) = S (length (objects ex_store2))
  /\ (forall id tok, id <> "t3" -> getToken ex_store2 id = Some tok ->
                     getToken ex_store3 id = Some tok)
  /\ exists tok,
       getToken ex_store3 "t3" = Some tok
       /\ state tok = CREATED
       /\ actor tok = bob.
Proof.
  assert (H : ex_create ex_grandchildParams ex_grandchildEnv ex_store2
              = (JS.Return 2%nat, ex_store3)) by (vm_compute; reflexivity).
  split; [exact H |].
  destruct (createToken_adds_one_token Ref.stringify Ref.subtle
              ex_grandchildParams ex_grandchildEnv ex_store2 2%nat ex_store3 H)
    as (Hlen & _ & Hold & _ & _ & tok & Hg & _ & _ & Hst & Hact & _).
  split; [exact Hlen |]. split; [exact Hold |].
  exists tok. split; [exact Hg |]. split; [exact Hst | exact Hact].
Defined.

(** X3 on a token whose parent [ghost] was never created. *)
Lemma verify_dangling_parent_witness :
  ex_create ex_orphanParams ex_orphanEnv ex_store1
  = (JS.Return 1%nat, ex_orphanStore)
  /\ p_parentId ex_orphanParams = Some "ghost"
  /\ tokens ex_store1 !! "ghost" = None
  /\ (let res := ex_verify ex_orphanStore (ById "t9") 2500 in
      chainIntact (details res) = false
      /\ valid res = false
      /\ signatureValid (details res) = true
      /\ error res = None
      /\ (trustScore res <=? 0.8)%float = true).
Proof.
  assert (H1 : ex_create ex_orphanParams ex_orphanEnv ex_store1
               = (JS.Return 1%nat, ex_orphanStore)) by (vm_compute; reflexivity).
  assert (H2 : p_parentId ex_orphanParams = Some "ghost") by reflexivity.
  assert (H3 : tokens ex_store1 !! "ghost" = None) by (vm_compute; reflexivity).
  split; [exact H1 |]. split; [exact H2 |]. split; [exact H3 |].
  apply (verify_dangling_parent Ref.stringify Ref.subtle
           ex_orphanParams ex_orphanEnv ex_store1 1%nat ex_orphanStore "ghost"
           2500 H1 H2); [discriminate | exact H3 | discriminate].
Defined.

(** X4 on the child [t2], created at 2000 with [expiresIn = 5000] and
    verified at the instant 7000. *)
Lemma verify_notExpired_after_create_witness :
  ex_create ex_childParams ex_childEnv ex_store1 = (JS.Return 1%nat, ex_store2)
  /\ notExpired (details (ex_verify ex_store2 (ById "t2") 7000))
     = ((5000 =? 0) || (7000 <? 2000 + 5000)).
Proof.
  assert (H : ex_create ex_childParams ex_childEnv ex_store1
              = (JS.Return 1%nat, ex_store2)) by (vm_compute; reflexivity).
  split; [exact H |].
  exact (verify_notExpired_after_create Ref.stringify Ref.subtle
           ex_childParams ex_childEnv ex_store1 1%nat ex_store2 7000 H).
Defined.


Lemma ex_store2_wf : wfStore ex_store2.
Proof.
  unfold ex_store2, ex_store1, ex_create.
  apply wfStore_createToken, wfStore_createToken, wfStore_new.
Qed.

(** X9 on the creation of [t3] under the stored parent [t2]. *)
Lemma createToken_extends_chain_witness :
  ex_create ex_grandchildParams ex_grandchildEnv ex_store2
  = (JS.Return 2%nat, ex_store3)
  /\ tokens ex_store2 !! "t3" = None
  /\ getChain 2 ex_store2 "t2" = Some (Some ex_chainT2)
  /\ exists tok,
       getToken ex_store3 "t3" = Some tok
       /\ getChain 3 ex_store3 "t3"
          = Some (Some (mkChain 3 ([ex_tokenA; ex_tokenB] ++ [tok])
                                (Some ex_tokenA) (Some tok))).
Proof.
  assert (H1 : ex_create ex_grandchildParams ex_grandchildEnv ex_store2
               = (JS.Return 2%nat, ex_store3)) by (vm_compute; reflexivity).
  assert (H2 : tokens ex_store2 !! "t3" = None) by (vm_compute; reflexivity).
  assert (H3 : getChain 2 ex_store2 "t2" = Some (Some ex_chainT2))
    by (vm_compute; reflexivity).
  assert (H4 : forall x, x ∈ chain_tokens ex_chainT2 ->
                         parentId x <> Some (gen_id ex_grandchildEnv)).
  { intros x Hx. cbn [chain_tokens ex_chainT2] in Hx.
    apply elem_of_cons in Hx as [-> | Hx]; [vm_compute; discriminate |].
    apply elem_of_cons in Hx as [-> | Hx]; [vm_compute; discriminate |].
    apply elem_of_nil in Hx. contradiction. }
  split; [exact H1 |]. split; [exact H2 |]. split; [exact H3 |].
  apply (createToken_extends_chain Ref.stringify Ref.subtle
           ex_grandchildParams ex_grandchildEnv ex_store2 2%nat ex_store3 "t2"
           2 ex_chainT2 ex_store2_wf H1 H2 eq_refl); [discriminate | exact H3 | exact H4].
Defined.

(** X11 on draws that run through the sixteen digits. *)
Lemma generateId_fallback_is_uuid_v4_witness :
  (forall i, 0 <= ex_rand i < 16)
  /\ generateId None ex_rand = "01234567-89ab-4cde-b012-3456789abcde"
  /\ String.length (generateId None ex_rand) = 36%nat
  /\ JS.truthy_str (generateId None ex_rand) = true.
Proof.
  assert (H : forall i, 0 <= ex_rand i < 16).
  { intros i. unfold ex_rand. apply Z.mod_pos_bound. reflexivity. }
  split; [exact H |]. split; [vm_compute; reflexivity |].
  destruct (generateId_fallback_is_uuid_v4 ex_rand H) as (Hlen & Hne & _).
  split; [exact Hlen | exact Hne].
Defined.

Lemma ex_propose_returns :
  propose Ref.stringify Ref.subtle ex_consent ex_proposeEnv ex_manager0
  = (JS.Return (mkProposal 0), ex_proposed).
Proof. vm_compute. reflexivity. Qed.

(** X13 on bob accepting the proposal alice made to him. *)
Lemma propose_then_accept_witness :
  propose Ref.stringify Ref.subtle ex_consent ex_proposeEnv ex_manager0
  = (JS.Return (mkProposal 0), ex_proposed)
  /\ ex_accept "p1" carol ex_acceptEnv ex_proposed
     = (JS.Throw (JS.Error "Acceptor does not match intended recipient"),
        ex_proposed)
  /\ exists resp m2,
       ex_accept "p1" bob ex_acceptEnv ex_proposed = (JS.Return resp, m2)
       /\ accepted resp = true
       /\ proposalState m2 "p1" = Some ACCEPTED.
Proof.
  split; [exact ex_propose_returns |].
  assert (Hne : gen_id ex_acceptEnv <> gen_id ex_proposeEnv) by discriminate.
  split.
  - apply (proj1 (propose_then_accept Ref.stringify Ref.subtle ex_consent
                    ex_proposeEnv ex_manager0 (mkProposal 0) ex_proposed carol
                    ex_acceptEnv ex_propose_returns Hne)); discriminate.
  - destruct (proj2 (propose_then_accept Ref.stringify Ref.subtle ex_consent
                       ex_proposeEnv ex_manager0 (mkProposal 0) ex_proposed bob
                       ex_acceptEnv ex_propose_returns Hne)
                    (or_intror eq_refl))
      as (resp & m2 & atok & Ha & Hacc & _ & _ & Hst & _).
    exists resp, m2. split; [exact Ha |]. split; [exact Hacc | exact Hst].
Defined.

(** X14 on carol, who is not the recipient, rejecting the proposal. *)
Lemma propose_then_reject_witness :
  propose Ref.stringify Ref.subtle ex_consent ex_proposeEnv ex_manager0
  = (JS.Return (mkProposal 0), ex_proposed)
  /\ exists resp m2,
       ex_reject "p1" carol (Some "no thanks") ex_rejectEnv ex_proposed
       = (JS.Return resp, m2)
       /\ accepted resp = false
       /\ reason resp = Some "no thanks"
       /\ proposalState m2 "p1" = Some REJECTED.
Proof.
  split; [exact ex_propose_returns |].
  assert (Hne : gen_id ex_rejectEnv <> gen_id ex_proposeEnv) by discriminate.
  destruct (propose_then_reject Ref.stringify Ref.subtle ex_consent
              ex_proposeEnv ex_manager0 (mkProposal 0) ex_proposed carol
              (Some "no thanks") ex_rejectEnv ex_propose_returns Hne)
    as (resp & m2 & rtok & Hr & Hacc & _ & Hwhy & Hst & _).
  exists resp, m2. split; [exact Hr |]. split; [exact Hacc |].
  split; [exact Hwhy | exact Hst].
Defined.

(** X15 on the chain of bob's acceptance. *)
Lemma consent_chain_after_response_witness :
  ex_accept "p1" bob ex_acceptEnv ex_proposed
  = (JS.Return (mkResponse "p1" true 1 None), ex_accepted)
  /\ exists ptok rtok,
       getToken (tibet ex_accepted) "p1" = Some ptok
       /\ getToken (tibet ex_accepted) "a1" = Some rtok
       /\ state ptok = ACCEPTED
       /\ getConsentChain 2 ex_accepted "a1"
          = Some (Some (mkChain 2 [ptok; rtok] (Some ptok) (Some rtok))).
Proof.
  assert (Ha : ex_accept "p1" bob ex_acceptEnv ex_proposed
               = (JS.Return (mkResponse "p1" true 1 None), ex_accepted))
    by (vm_compute; reflexivity).
  split; [exact Ha |].
  assert (Hne : gen_id ex_acceptEnv <> gen_id ex_proposeEnv) by discriminate.
  assert (Hg : gen_id ex_proposeEnv <> "") by discriminate.
  destruct (consent_chain_after_response Ref.stringify Ref.subtle ex_consent
              ex_proposeEnv ex_manager0 (mkProposal 0) ex_proposed bob None
              ex_acceptEnv (mkResponse "p1" true 1 None) ex_accepted 2
              ex_propose_returns Hne Hg (Nat.le_refl 2) (or_introl Ha))
    as (ptok & rtok & Hp & Hr & Hs1 & Hs2 & Hc & _).
  exists ptok, rtok. split; [exact Hp |]. split; [exact Hr |].
  split; [rewrite Hs1; exact Hs2 | exact Hc].
Defined.

(** X16 on the accepted proposal. *)
Lemma listProposals_follows_the_state_witness :
  proposals ex_accepted !! "p1" = Some (mkProposal 0)
  /\ proposalState ex_accepted "p1" = Some ACCEPTED
  /\ mkProposal 0 ∈ listProposals None ex_accepted
  /\ mkProposal 0 ∈ listProposals (Some ACCEPTED) ex_accepted
  /\ ~ mkProposal 0 ∈ listProposals (Some PROPOSED) ex_accepted.
Proof.
  assert (H1 : proposals ex_accepted !! "p1" = Some (mkProposal 0))
    by (vm_compute; reflexivity).
  assert (H2 : proposalState ex_accepted "p1" = Some ACCEPTED)
    by (vm_compute; reflexivity).
  split; [exact H1 |]. split; [exact H2 |].
  destruct (listProposals_follows_the_state ex_accepted "p1" (mkProposal 0)
              ACCEPTED H1 H2) as (Hall & Hs).
  split; [exact Hall |]. split; [apply Hs; reflexivity |].
  intros Hin. apply Hs in Hin. discriminate.
Defined.

(** X17 on the consent alice proposes to bob. *)
Lemma createBilateralConsent_closures_witness :
  createBilateralConsent Ref.stringify Ref.subtle ex_consent ex_proposeEnv
  = (JS.Return ex_quick, ex_proposed)
  /\ defaultActor (tibet ex_proposed) = alice
  /\ (exists resp m2,
        q_accept ex_quick (Some "ignored") ex_acceptEnv ex_proposed
        = (JS.Return resp, m2)
        /\ accepted resp = true
        /\ proposalState m2 "p1" = Some ACCEPTED)
  /\ (exists resp m2,
        q_reject ex_quick (Some "no thanks") ex_rejectEnv ex_proposed
        = (JS.Return resp, m2)
        /\ accepted resp = false
        /\ reason resp = Some "no thanks"
        /\ proposalState m2 "p1" = Some REJECTED).
Proof.
  assert (H : createBilateralConsent Ref.stringify Ref.subtle ex_consent
                ex_proposeEnv = (JS.Return ex_quick, ex_proposed)).
  { unfold createBilateralConsent. cbv zeta.
    change (new_Manager (Some (c_from ex_consent))) with ex_manager0.
    rewrite ex_propose_returns. reflexivity. }
  split; [exact H |].
  assert (Hna : gen_id ex_acceptEnv <> gen_id ex_proposeEnv) by discriminate.
  assert (Hnr : gen_id ex_rejectEnv <> gen_id ex_proposeEnv) by discriminate.
  split.
  - exact (proj1 (createBilateralConsent_closures Ref.stringify Ref.subtle
                    ex_consent ex_proposeEnv ex_quick ex_proposed ex_acceptEnv
                    H Hna)).
  - split.
    + exact (proj1 (proj2 (proj2 (createBilateralConsent_closures
                Ref.stringify Ref.subtle ex_consent ex_proposeEnv ex_quick
                ex_proposed ex_acceptEnv H Hna))) (Some "ignored")).
    + exact (proj2 (proj2 (proj2 (proj2 (createBilateralConsent_closures
                Ref.stringify Ref.subtle ex_consent ex_proposeEnv ex_quick
                ex_proposed ex_rejectEnv H Hnr)))) (Some "no thanks")).
Defined.

(** X22 on the identifier of alice. *)
Lemma valid_did_is_created_witness :
  DID.isValidDID alice = true
  /\ exists id, DID.parseDID alice = Some (DID.mkParsed "jis" id)
                /\ DID.createDID [id] = JS.Return alice.
Proof.
  assert (H : DID.isValidDID alice = true) by (vm_compute; reflexivity).
  split; [exact H | exact (valid_did_is_created alice H)].
Defined.

Lemma ex_registry_valid : validRegistry ex_registry.
Proof. apply validRegistry_register, validRegistry_new. Qed.

(** X24 on the registry that holds the document of alice, asked for an
    identifier of another method. *)
Lemma registry_holds_valid_ids_witness :
  validRegistry ex_registry
  /\ DID.resolve alice ex_registry = Some ex_aliceDoc
  /\ DID.isValidDID "did:web:alice" = false
  /\ DID.resolve "did:web:alice" ex_registry = None
  /\ DID.exists_ "did:web:alice" ex_registry = false.
Proof.
  split; [exact ex_registry_valid |].
  split; [vm_compute; reflexivity |].
  assert (Hv : DID.isValidDID "did:web:alice" = false) by (vm_compute; reflexivity).
  split; [exact Hv |].
  exact (proj1 (proj2 (proj2 (registry_holds_valid_ids ex_registry ex_aliceDoc
                                "did:web:alice" ex_registry_valid))) Hv).
Defined.
